(** * LUME: [scripts/gzip_web_files.py]

    A shallow embedding of the pre-upload hook that gzips the static web
    assets under [data/], together with the part of Python's [pathlib],
    [gzip] and [shutil] that the script calls, and the properties of the
    script that follow from it.

    The script runs against a file system and a clock.  Both are explicit
    here: a directory tree whose directories list their entries in the
    order in which the operating system enumerates them, and a [platform]
    record for what the script cannot determine itself (the bytes that
    [gzip] produces, the clock readings, the I/O calls that fail).  The
    registration of the hook with the build tool ([env.AddPreAction]) is
    not part of the embedding, and [gzip_web_files] does not use the three
    arguments that the build tool passes to it. *)

From stdpp Require Import base option list strings gmap.
From Stdlib Require Import ZArith QArith Ascii String Strings.Byte Lia.

Local Open Scope string_scope.
Local Open Scope list_scope.
Local Open Scope Z_scope.

(** ** Python strings *)

Module Str.

(** [len(s)] *)
Definition len (s : string) : Z := Z.of_nat (String.length s).

(** [s.rfind(c)] for a one-character [c]: the highest index at which [c]
    occurs, [-1] when it does not occur. *)
Fixpoint rfind (c : ascii) (s : string) : Z :=
  match s with
  | EmptyString => -1
  | String a s' =>
      let r := rfind c s' in
      if 0 <=? r then r + 1 else if Ascii.eqb a c then 0 else -1
  end.

(** [c in s] for a one-character [c]. *)
Fixpoint contains (c : ascii) (s : string) : bool :=
  match s with
  | EmptyString => false
  | String a s' => Ascii.eqb a c || contains c s'
  end.

Fixpoint take (n : nat) (s : string) : string :=
  match n, s with
  | S n', String a s' => String a (take n' s')
  | _, _ => EmptyString
  end.

Fixpoint drop (n : nat) (s : string) : string :=
  match n, s with
  | S n', String _ s' => drop n' s'
  | _, _ => s
  end.

(** A slice bound as Python normalises it: a negative bound counts from
    the end, and the result is clamped to [0 .. len(s)]. *)
Definition bound (s : string) (i : Z) : nat :=
  Z.to_nat (Z.min (len s) (Z.max 0 (if i <? 0 then i + len s else i))).

(** [s[i:]] *)
Definition slice_from (s : string) (i : Z) : string := drop (bound s i) s.

(** [s[:j]] *)
Definition slice_to (s : string) (j : Z) : string := take (bound s j) s.

(** [s.startswith(c)] for a one-character [c]. *)
Definition startswith (c : ascii) (s : string) : bool :=
  match s with
  | String a _ => Ascii.eqb a c
  | EmptyString => false
  end.

End Str.

(** ** Exceptions and results *)

Inductive exception :=
  | ValueError
  | ZeroDivisionError
  | FileNotFoundError
  | IsADirectoryError
  | NotADirectoryError
  | OSError (errno : Z).

Inductive result (A : Type) :=
  | Ok (a : A)
  | Raise (e : exception).
Arguments Ok {A} a.
Arguments Raise {A} e.

(** ** [pathlib]: pure paths

    A path is the list of its parts, relative to the working directory of
    the build: [Path("data")] is [["data"]]. *)

Definition path := list string.

Module Path.

(** [PurePath.name]: the final part, [''] for the empty path. *)
Definition name (p : path) : string := List.last p EmptyString.

(** [PurePath.parent], as the parts without the final one. *)
Definition parent (p : path) : path := removelast p.

(** [PurePath.suffix] on the final part:
<<
    i = name.rfind('.')
    if 0 < i < len(name) - 1: return name[i:]
    else: return ''
>> *)
Definition name_suffix (name : string) : string :=
  let i := Str.rfind "." name in
  if (0 <? i) && (i <? Str.len name - 1) then Str.slice_from name i
  else EmptyString.

Definition suffix (p : path) : string := name_suffix (name p).

(** [PurePath.with_suffix(suffix)]:
<<
    if sep in suffix: raise ValueError
    if suffix and not suffix.startswith('.') or suffix == '.': raise ValueError
    name = self.name
    if not name: raise ValueError
    old_suffix = self.suffix
    if not old_suffix: name = name + suffix
    else: name = name[:-len(old_suffix)] + suffix
    return <the path with its final part replaced by name>
>> *)
Definition with_suffix (p : path) (suffix' : string) : result path :=
  if Str.contains "/" suffix' then Raise ValueError
  else if (negb (String.eqb suffix' EmptyString)
           && negb (Str.startswith "." suffix'))
          || String.eqb suffix' "." then Raise ValueError
  else
    let name := name p in
    if String.eqb name EmptyString then Raise ValueError
    else
      let old_suffix := suffix p in
      let name' :=
        if String.eqb old_suffix EmptyString then name +:+ suffix'
        else Str.slice_to name (- Str.len old_suffix) +:+ suffix' in
      Ok (parent p ++ [name']).

(** [parent / child]: one more part (what [rglob] builds its results with). *)
Definition child (parent : path) (name : string) : path := parent ++ [name].

End Path.

(** ** The file system

    A regular file has its bytes and its modification time ([st_mtime], in
    the unit and at the precision at which [os.stat] reports it; the script
    only compares two such values).  A directory has a modification time
    and its entries.  Symbolic links are not modelled. *)

Record file := { content : list byte; mtime : Z }.

#[local] Set Warnings "-register-all".

Inductive node :=
  | File (f : file)
  | Dir (dir_mtime : Z) (entries : list (string * node)).

Module Tree.

(** The entry called [name] of a directory listing. *)
Fixpoint get (name : string) (es : list (string * node)) : option node :=
  match es with
  | [] => None
  | (n, x) :: es' => if String.eqb n name then Some x else get name es'
  end.

(** Replace the entry called [name], or add it when there is none. *)
Fixpoint put (name : string) (x : node) (es : list (string * node))
  : list (string * node) :=
  match es with
  | [] => [(name, x)]
  | (n, y) :: es' =>
      if String.eqb n name then (n, x) :: es' else (n, y) :: put name x es'
  end.

(** Path resolution from the node [n]. *)
Fixpoint lookup (p : path) (n : node) : option node :=
  match p with
  | [] => Some n
  | c :: p' =>
      match n with
      | Dir _ es =>
          match get c es with
          | Some x => lookup p' x
          | None => None
          end
      | File _ => None
      end
  end.

(** The regular file at [p], if [p] names one. *)
Definition file_at (p : path) (n : node) : option file :=
  match lookup p n with
  | Some (File f) => Some f
  | _ => None
  end.

(** Make [f] the regular file at [p], as opening [p] for writing and
    writing to it does: an existing regular file is replaced, a missing one
    is created in its directory (whose modification time becomes [now]);
    a directory at [p], or a missing directory on the way, is an error. *)
Fixpoint store (p : path) (f : file) (now : Z) (n : node) : result node :=
  match n with
  | File _ => Raise NotADirectoryError
  | Dir m es =>
      match p with
      | [] => Raise IsADirectoryError
      | c :: p' =>
          match p' with
          | [] =>
              match get c es with
              | Some (Dir _ _) => Raise IsADirectoryError
              | Some (File _) => Ok (Dir m (put c (File f) es))
              | None => Ok (Dir now (put c (File f) es))
              end
          | _ :: _ =>
              match get c es with
              | Some x =>
                  match store p' f now x with
                  | Ok x' => Ok (Dir m (put c x' es))
                  | Raise e => Raise e
                  end
              | None => Raise FileNotFoundError
              end
          end
      end
  end.

(** What [Path.rglob("*")] yields below the directory [n] at path [parent]:
    the entries of the directory in listing order, then, for each entry in
    turn, what lies below it. *)
Fixpoint walk (parent : path) (n : node) : list path :=
  match n with
  | File _ => []
  | Dir _ es =>
      map (λ e, Path.child parent e.1) es
      ++ flat_map (λ e, walk (Path.child parent e.1) e.2) es
  end.

End Tree.

(** [os.stat_result], the fields the script reads.  [st_size] of a directory
    depends on the file system; the script reads it for regular files only. *)
Record stat_result := { st_isreg : bool; st_mtime : Z; st_size : Z }.

Definition node_stat (n : node) : stat_result :=
  match n with
  | File f =>
      {| st_isreg := true; st_mtime := mtime f;
         st_size := Z.of_nat (List.length (content f)) |}
  | Dir m _ => {| st_isreg := false; st_mtime := m; st_size := 0 |}
  end.

(** ** The world the script runs in *)

(** What the script prints, one constructor per [print] call of the script;
    the numbers are kept as numbers (the f-strings format them). *)
Inductive line :=
  | data_not_found
      (* "⚠️  data/ directory not found, skipping gzip" *)
  | file_compressed (name : string) (original_size compressed_size : Z)
      (percent : Q)
      (* "✓ {name}: {original_size:,} → {compressed_size:,} bytes (-{percent:.0f}%)" *)
  | compressed_summary (files_compressed total_saved : Z)
      (* "📦 Compressed {files_compressed} files, saved {total_saved:,} bytes total" *)
  | all_already_compressed.
      (* "✓ All files already compressed" *)

Inductive mode := rb | wb.

(** [cwd] is the working directory of the build, [ticks] counts the clock
    readings taken so far, [stdout] is what has been printed and [opens]
    records every call that opens a file, in order. *)
Record world := {
  cwd : node;
  ticks : nat;
  stdout : list line;
  opens : list (mode * path)
}.

(** What the platform decides:
    - [gzip_compress level fname mtime data]: the gzip stream for [data] with
      the given header fields;
    - [clock n]: the [n]-th reading of the system clock;
    - [open_fault m p w]: the [errno] with which opening [p] in mode [m] fails
      in [w] for a reason outside the model (permissions, ...), if it fails;
    - [copy_fault src dst w]: when copying [src] into the gzip stream at [dst]
      fails part-way (disk full, read error, ...), the [errno] and the bytes
      that are left in [dst]. *)
Record platform := {
  gzip_compress : Z → string → Z → list byte → list byte;
  clock : nat → Z;
  open_fault : mode → path → world → option Z;
  copy_fault : path → path → world → option (Z * list byte)
}.

(** ** Computations: state and exceptions

    A statement maps the world to the world it leaves and either a value or
    the exception it raises; what was done before a [raise] stays done. *)

Definition M (A : Type) : Type := world → world * result A.

Global Instance M_ret : MRet M := λ A a w, (w, Ok a).

Global Instance M_bind : MBind M := λ A B k m w,
  match m w with
  | (w', Ok a) => k a w'
  | (w', Raise e) => (w', Raise e)
  end.

Definition raise {A} (e : exception) : M A := λ w, (w, Raise e).

Definition lift {A} (r : result A) : M A := λ w, (w, r).

(** [for x in xs: body], with the local variables the body assigns as [s]. *)
Fixpoint for_each {A S} (xs : list A) (body : A → S → M S) (s : S) : M S :=
  match xs with
  | [] => mret s
  | x :: xs' => s' ← body x s; for_each xs' body s'
  end.

(** [a / b] on integers; the rational stands for the float that Python
    rounds it to. *)
Definition truediv (a b : Z) : M Q :=
  if b =? 0 then raise ZeroDivisionError
  else mret (inject_Z a / inject_Z b)%Q.

(** ** The calls the script makes *)

Definition with_cwd (n : node) (w : world) : world :=
  {| cwd := n; ticks := ticks w; stdout := stdout w; opens := opens w |}.

Definition with_open (m : mode) (p : path) (w : world) : world :=
  {| cwd := cwd w; ticks := ticks w; stdout := stdout w;
     opens := opens w ++ [(m, p)] |}.

Definition tick (w : world) : world :=
  {| cwd := cwd w; ticks := S (ticks w); stdout := stdout w;
     opens := opens w |}.

Definition with_line (l : line) (w : world) : world :=
  {| cwd := cwd w; ticks := ticks w; stdout := stdout w ++ [l];
     opens := opens w |}.

(** [print(...)] *)
Definition print (l : line) : M unit := λ w, (with_line l w, Ok tt).

(** [Path.exists()] *)
Definition path_exists (p : path) : M bool := λ w,
  (w, Ok (bool_decide (is_Some (Tree.lookup p (cwd w))))).

(** [Path.is_file()] *)
Definition is_file (p : path) : M bool := λ w,
  (w, Ok (bool_decide (is_Some (Tree.file_at p (cwd w))))).

(** [Path.stat()] *)
Definition stat (p : path) : M stat_result := λ w,
  match Tree.lookup p (cwd w) with
  | Some n => (w, Ok (node_stat n))
  | None => (w, Raise FileNotFoundError)
  end.

(** [Path.rglob("*")].  The generator lists a directory when it reaches it;
    the script adds files only to directories that are already listed and
    never adds a directory, so the paths it yields are those of the tree at
    the start of the loop. *)
Definition rglob (p : path) : M (list path) := λ w,
  match Tree.lookup p (cwd w) with
  | Some n => (w, Ok (Tree.walk p n))
  | None => (w, Ok [])
  end.

(** An open gzip stream: the file it writes to and the two header fields
    that [GzipFile] fills in when it is opened for writing. *)
Record gzip_file := {
  gz_fileobj : path;
  gz_level : Z;
  gz_fname : string;
  gz_mtime : Z
}.

(** The name [GzipFile] stores in the header: the base name of the file,
    without its last three characters when it ends with ['.gz']. *)
Definition gzip_header_name (p : path) : string :=
  let fname := Path.name p in
  if String.eqb (Str.slice_from fname (-3)) ".gz" && (3 <=? Str.len fname)
  then Str.slice_to fname (-3) else fname.

(** File extensions to compress *)
Definition extensions : gset string :=
  {[ ".html"; ".css"; ".js"; ".json"; ".svg"; ".xml" ]}.

Section Script.

Variable os : platform.

Definition now (w : world) : Z := clock os (ticks w).

(** [open(p, 'rb')]; the handle is the path, read when it is copied. *)
Definition open_rb (p : path) : M path := λ w,
  let w := with_open rb p w in
  match open_fault os rb p w with
  | Some errno => (w, Raise (OSError errno))
  | None =>
      match Tree.lookup p (cwd w) with
      | Some (File _) => (w, Ok p)
      | Some (Dir _ _) => (w, Raise IsADirectoryError)
      | None => (w, Raise FileNotFoundError)
      end
  end.

(** [gzip.open(p, 'wb', compresslevel)]: [p] is created or truncated, then
    the header fields are fixed (the header time is [time.time()]). *)
Definition gzip_open_wb (p : path) (compresslevel : Z) : M gzip_file := λ w,
  let w := with_open wb p w in
  match open_fault os wb p w with
  | Some errno => (w, Raise (OSError errno))
  | None =>
      match Tree.store p {| content := []; mtime := now w |} (now w) (cwd w)
      with
      | Raise e => (w, Raise e)
      | Ok n =>
          let w := tick (with_cwd n w) in
          (tick w,
           Ok {| gz_fileobj := p; gz_level := compresslevel;
                 gz_fname := gzip_header_name p; gz_mtime := now w |})
      end
  end.

(** [shutil.copyfileobj(f_in, f_out)] followed by the closing of [f_out]
    at the end of its [with] block: all of [f_in] is read, compressed and
    written.  When the platform makes this fail, what it left in the file
    stays there. *)
Definition copyfileobj (f_in : path) (f_out : gzip_file) : M unit := λ w,
  let data := from_option content [] (Tree.file_at f_in (cwd w)) in
  let stream :=
    gzip_compress os (gz_level f_out) (gz_fname f_out) (gz_mtime f_out) data in
  let '(written, outcome) :=
    match copy_fault os f_in (gz_fileobj f_out) w with
    | Some (errno, remains) => (remains, Raise (OSError errno))
    | None => (stream, Ok tt)
    end in
  match Tree.store (gz_fileobj f_out) {| content := written; mtime := now w |}
          (now w) (cwd w) with
  | Raise e => (w, Raise e)
  | Ok n => (tick (with_cwd n w), outcome)
  end.

(** ** [gzip_web_files] *)

(** The body of [for file_path in data_dir.rglob("*")]; the local variables
    it assigns are [files_compressed] and [total_saved]. *)
Definition loop_body (file_path : path) (locals : Z * Z) : M (Z * Z) :=
  let '(files_compressed, total_saved) := locals in
  isfile ← is_file file_path;
  if isfile && bool_decide (Path.suffix file_path ∈ extensions) then
    gz_path ← lift (Path.with_suffix file_path
                      (Path.suffix file_path +:+ ".gz"));
    (* Skip if .gz is newer than source *)
    gz_exists ← path_exists gz_path;
    newer ← (if gz_exists : bool then
               gz_st ← stat gz_path;
               src_st ← stat file_path;
               mret (st_mtime gz_st >? st_mtime src_st)
             else mret false);
    if newer : bool then mret locals (* continue *)
    else
      src_st ← stat file_path;
      let original_size := st_size src_st in
      f_in ← open_rb file_path;
      f_out ← gzip_open_wb gz_path 9;
      _ ← copyfileobj f_in f_out;
      gz_st ← stat gz_path;
      let compressed_size := st_size gz_st in
      let saved := original_size - compressed_size in
      let total_saved := total_saved + saved in
      let files_compressed := files_compressed + 1 in
      percent ← (if original_size >? 0 then
                   q ← truediv saved original_size;
                   mret (q * inject_Z 100)%Q
                 else mret (inject_Z 0));
      _ ← print (file_compressed (Path.name file_path) original_size
                   compressed_size percent);
      mret (files_compressed, total_saved)
  else mret locals.

Definition gzip_web_files : M unit :=
  let data_dir : path := ["data"] in
  found ← path_exists data_dir;
  if negb found then
    print data_not_found (* return *)
  else
    files ← rglob data_dir;
    '(files_compressed, total_saved) ← for_each files loop_body (0, 0);
    if files_compressed >? 0 then
      print (compressed_summary files_compressed total_saved)
    else
      print all_already_compressed.

End Script.

(** ** Vocabulary of the properties *)

(** The source path with ['.gz'] added at its end. *)
Definition artifact (p : path) : path :=
  Path.parent p ++ [Path.name p +:+ ".gz"].

(** [p] is a compression source in the tree [n]: a regular file whose
    extension is in the allow-set. *)
Definition eligible (p : path) (n : node) : Prop :=
  is_Some (Tree.file_at p n) ∧ Path.suffix p ∈ extensions.

(** The freshness check: something exists at the artifact path of [p] and
    its modification time is strictly after that of [p]. *)
Definition newer (p : path) (n : node) : bool :=
  match Tree.lookup (artifact p) n, Tree.lookup p n with
  | Some gz, Some src => st_mtime (node_stat gz) >? st_mtime (node_stat src)
  | _, _ => false
  end.

(** The percentage that the script prints for a file. *)
Definition percentage (saved original_size : Z) : Q :=
  if original_size >? 0
  then (inject_Z saved / inject_Z original_size * inject_Z 100)%Q
  else inject_Z 0.

(** The line that the script prints after the loop. *)
Definition closing_line (locals : Z * Z) : line :=
  if locals.1 >? 0 then compressed_summary locals.1 locals.2
  else all_already_compressed.

(** Where the script looks for web files, and the paths below a directory. *)
Definition data_dir : path := ["data"].

Definition below (d p : path) : Prop := ∃ q, q ≠ [] ∧ p = d ++ q.

(** The paths that [data_dir.rglob("*")] yields in the tree [n]. *)
Definition files_of (n : node) : list path :=
  match Tree.lookup data_dir n with
  | Some d => Tree.walk data_dir d
  | None => []
  end.

(** No two entries of a directory have the same name, anywhere in the tree. *)
Fixpoint well_formed (n : node) : bool :=
  match n with
  | File _ => true
  | Dir _ es =>
      bool_decide (NoDup es.*1) && forallb (λ e, well_formed e.2) es
  end.

(** What a turn of the loop for [p] may have changed between [w] and [w']:
    nothing but the artifact of [p] among the regular files, nothing that
    [stat] reports elsewhere (the directory of [p] apart), and [p] was
    opened for reading, then possibly its artifact for writing. *)
Record touches (p : path) (w w' : world) : Prop := {
  touch_files :
    ∀ q, q ≠ artifact p → Tree.file_at q (cwd w') = Tree.file_at q (cwd w);
  touch_stat :
    ∀ q, q ≠ artifact p → q ≠ Path.parent p →
      node_stat <$> Tree.lookup q (cwd w') = node_stat <$> Tree.lookup q (cwd w);
  touch_opens :
    opens w' = opens w ++ [(rb, p)]
    ∨ opens w' = opens w ++ [(rb, p); (wb, artifact p)];
  touch_stdout :
    ∃ ls, stdout w' = stdout w ++ ls
}.

Section Outcomes.

Variable os : platform.

(** The ways in which one turn of the loop ends, for the file [p], the
    counters [s] and the world [w] it starts in.  [loop_body_outcome]
    below shows that [loop_body] always ends in one of them. *)
Inductive body_outcome (p : path) (s : Z * Z) (w : world)
  : world * result (Z * Z) → Prop :=
  | body_ineligible :
      ¬ eligible p (cwd w) →
      body_outcome p s w (w, Ok s)
  | body_newer :
      eligible p (cwd w) → newer p (cwd w) = true →
      body_outcome p s w (w, Ok s)
  | body_open_rb_fault errno :
      let w1 := with_open rb p w in
      eligible p (cwd w) → newer p (cwd w) = false →
      open_fault os rb p w1 = Some errno →
      body_outcome p s w (w1, Raise (OSError errno))
  | body_open_wb_fault errno :
      let w1 := with_open rb p w in
      let w2 := with_open wb (artifact p) w1 in
      eligible p (cwd w) → newer p (cwd w) = false →
      open_fault os rb p w1 = None →
      open_fault os wb (artifact p) w2 = Some errno →
      body_outcome p s w (w2, Raise (OSError errno))
  | body_create_error e :
      let w1 := with_open rb p w in
      let w2 := with_open wb (artifact p) w1 in
      eligible p (cwd w) → newer p (cwd w) = false →
      open_fault os rb p w1 = None →
      open_fault os wb (artifact p) w2 = None →
      Tree.store (artifact p) {| content := []; mtime := now os w |}
        (now os w) (cwd w) = Raise e →
      body_outcome p s w (w2, Raise e)
  | body_copy_fault errno remains n3 n4 :
      let w1 := with_open rb p w in
      let w2 := with_open wb (artifact p) w1 in
      let w3 := tick (tick (with_cwd n3 w2)) in
      eligible p (cwd w) → newer p (cwd w) = false →
      open_fault os rb p w1 = None →
      open_fault os wb (artifact p) w2 = None →
      Tree.store (artifact p) {| content := []; mtime := now os w |}
        (now os w) (cwd w) = Ok n3 →
      copy_fault os p (artifact p) w3 = Some (errno, remains) →
      Tree.store (artifact p) {| content := remains; mtime := now os w3 |}
        (now os w3) n3 = Ok n4 →
      body_outcome p s w (tick (with_cwd n4 w3), Raise (OSError errno))
  | body_compressed f n3 n4 :
      let w1 := with_open rb p w in
      let w2 := with_open wb (artifact p) w1 in
      let w3 := tick (tick (with_cwd n3 w2)) in
      let stream :=
        gzip_compress os 9 (Path.name p) (clock os (S (ticks w))) (content f) in
      let original_size := Z.of_nat (List.length (content f)) in
      let compressed_size := Z.of_nat (List.length stream) in
      let saved := original_size - compressed_size in
      Tree.file_at p (cwd w) = Some f → Path.suffix p ∈ extensions →
      newer p (cwd w) = false →
      open_fault os rb p w1 = None →
      open_fault os wb (artifact p) w2 = None →
      Tree.store (artifact p) {| content := []; mtime := now os w |}
        (now os w) (cwd w) = Ok n3 →
      copy_fault os p (artifact p) w3 = None →
      Tree.store (artifact p) {| content := stream; mtime := now os w3 |}
        (now os w3) n3 = Ok n4 →
      body_outcome p s w
        (with_line
           (file_compressed (Path.name p) original_size compressed_size
              (percentage saved original_size))
           (tick (with_cwd n4 w3)),
         Ok (s.1 + 1, s.2 + saved)).

End Outcomes.

(** The platform makes no call fail. *)
Definition no_faults (os : platform) : Prop :=
  (∀ m p w, open_fault os m p w = None)
  ∧ (∀ src dst w, copy_fault os src dst w = None).

(** No source has a directory at the path of its artifact. *)
Definition no_directory_in_the_way (n : node) : Prop :=
  ∀ p m es, eligible p n → Tree.lookup (artifact p) n ≠ Some (Dir m es).

(** The line that the script prints for [p] when the stream it wrote has
    the header time [t]. *)
Definition line_of (os : platform) (p : path) (f : file) (t : Z) : line :=
  let stream := gzip_compress os 9 (Path.name p) t (content f) in
  let original_size := Z.of_nat (List.length (content f)) in
  let compressed_size := Z.of_nat (List.length stream) in
  file_compressed (Path.name p) original_size compressed_size
    (percentage (original_size - compressed_size) original_size).

(** The world after [n] runs in succession. *)
Fixpoint rerun (os : platform) (n : nat) (w : world) : world :=
  match n with
  | O => w
  | S n' => (gzip_web_files os (rerun os n' w)).1
  end.

(** An [open] of the run that belongs to a source below [data/]: the source
    opened for reading, or its artifact opened for writing. *)
Definition source_event (n : node) (ev : mode * path) : Prop :=
  ∃ p, p ∈ files_of n ∧ eligible p n ∧ (ev = (rb, p) ∨ ev = (wb, artifact p)).

(** ** Vocabulary of the further properties *)

#[global] Instance eligible_dec p n : Decision (eligible p n) :=
  (_ : Decision (is_Some (Tree.file_at p n) ∧ Path.suffix p ∈ extensions)).

(** [p] is a source that a run compresses in the tree [n]: a regular file
    with an extension of the allow-set whose artifact is not newer. *)
Definition stale (n : node) (p : path) : bool :=
  bool_decide (eligible p n) && negb (newer p n).

(** A line for a compressed file with sizes that are sizes and the
    percentage that the script computes from them. *)
Definition file_line (l : line) : Prop :=
  match l with
  | file_compressed _ original_size compressed_size percent =>
      0 <= original_size ∧ 0 <= compressed_size
      ∧ percent = percentage (original_size - compressed_size) original_size
  | _ => False
  end.

(** [original_size - compressed_size] of a line. *)
Definition saved_of (l : line) : Z :=
  match l with
  | file_compressed _ original_size compressed_size _ =>
      original_size - compressed_size
  | _ => 0
  end.

Definition total_saved_of (ls : list line) : Z :=
  foldr (λ l total, saved_of l + total) 0 ls.

(** The line for the source [p]: its name, its size in the tree [n], the
    size of its artifact in the tree [n'], and the percentage that the
    script computes from the two. *)
Definition report_of (n n' : node) (p : path) (l : line) : Prop :=
  ∃ f gz,
    Tree.file_at p n = Some f ∧ Tree.file_at (artifact p) n' = Some gz
    ∧ let original_size := Z.of_nat (List.length (content f)) in
      let compressed_size := Z.of_nat (List.length (content gz)) in
      l = file_compressed (Path.name p) original_size compressed_size
            (percentage (original_size - compressed_size) original_size).

(** The two files that the script opens for a source. *)
Definition opens_of (p : path) : list (mode * path) :=
  [(rb, p); (wb, artifact p)].

(** There is a directory at the path [q] of the tree [n]. *)
Definition is_dir (q : path) (n : node) : Prop :=
  ∃ m es, Tree.lookup q n = Some (Dir m es).

(** The situation that the turns keep: no source below [data/] has a
    directory at the path of its artifact, and the clock readings to come
    are after the modification times of the sources below [data/]. *)
Definition ready (os : platform) (k0 : nat) (w : world) : Prop :=
  (k0 <= ticks w)%nat
  ∧ (∀ p, below data_dir p → eligible p (cwd w) →
          ¬ is_dir (artifact p) (cwd w))
  ∧ (∀ p f k, below data_dir p → Tree.file_at p (cwd w) = Some f →
              Path.suffix p ∈ extensions → (k0 < k)%nat →
              mtime f < clock os k).

(** ** A sample platform and sample trees *)

Module Sample.

(** A stand-in for gzip that only prefixes the two magic bytes, with its
    inverse; a clock that advances by one per reading; no faults. *)
Definition os : platform := {|
  gzip_compress := λ _ _ _ data, x1f :: x8b :: data;
  clock := λ n, 100 + Z.of_nat n;
  open_fault := λ _ _ _, None;
  copy_fault := λ _ _ _, None
|}.

Definition gunzip (stream : list byte) : option (list byte) :=
  match stream with
  | x1f :: x8b :: data => Some data
  | _ => None
  end.

(** The same platform with a disk that is full: every copy fails with
    [ENOSPC] after the first byte. *)
Definition full_disk : platform := {|
  gzip_compress := gzip_compress os;
  clock := clock os;
  open_fault := open_fault os;
  copy_fault := λ _ _ _, Some (28, [x1f])
|}.

(** [data/] with a page whose artifact is stale, an empty style sheet, an
    image, and a script whose artifact is newer. *)
Definition tree : node :=
  Dir 1 [("data", Dir 2 [
    ("a.html", File {| content := [x61; x62]; mtime := 10 |});
    ("a.html.gz", File {| content := [x00]; mtime := 5 |});
    ("b.css", File {| content := []; mtime := 10 |});
    ("img.png", File {| content := [x01]; mtime := 3 |});
    ("sub", Dir 4 [
      ("c.js", File {| content := [x63]; mtime := 7 |});
      ("c.js.gz", File {| content := [x09]; mtime := 8 |})])])].

Definition world_of (n : node) : world :=
  {| cwd := n; ticks := 0; stdout := []; opens := [] |}.

Definition w : world := world_of tree.

(** A working directory without [data/]. *)
Definition no_data : world := world_of (Dir 1 [("src", Dir 2 [])]).

(** A script and its artifact with the same modification time. *)
Definition same_time : world :=
  world_of (Dir 1 [("data", Dir 2 [
    ("app.js", File {| content := [x61]; mtime := 7 |});
    ("app.js.gz", File {| content := [x00]; mtime := 7 |})])]).

End Sample.

(** The sample platform with a copy that fails with [ENOSPC] for the style
    sheet only, with nothing written. *)
Definition fails_at_b_css : platform := {|
  gzip_compress := gzip_compress Sample.os;
  clock := clock Sample.os;
  open_fault := open_fault Sample.os;
  copy_fault := λ src _ _,
    if bool_decide (src = ["data"; "b.css"]) then Some (28, []) else None
|}.

(** ** [pathlib] on small inputs *)

Example suffix_css : Path.suffix ["data"; "a.css"] = ".css".
Proof. reflexivity. Qed.

Example suffix_tar_gz : Path.suffix ["data"; "a.tar.gz"] = ".gz".
Proof. reflexivity. Qed.

Example suffix_dotfile : Path.suffix ["data"; ".html"] = EmptyString.
Proof. reflexivity. Qed.

Example with_suffix_css :
  Path.with_suffix ["data"; "a.css"] (".css" +:+ ".gz") = Ok ["data"; "a.css.gz"].
Proof. reflexivity. Qed.

(** ** The script on the sample tree *)

Example sample_run_output :
  stdout (gzip_web_files Sample.os Sample.w).1
  = [file_compressed "a.html" 2 4 (-200 # 2);
     file_compressed "b.css" 0 2 0;
     compressed_summary 2 (-4)].
Proof. reflexivity. Qed.

Example sample_run_artifacts :
  let n := cwd (gzip_web_files Sample.os Sample.w).1 in
  Tree.file_at ["data"; "a.html.gz"] n
  = Some {| content := [x1f; x8b; x61; x62]; mtime := 102 |}
  ∧ Tree.file_at ["data"; "b.css.gz"] n
    = Some {| content := [x1f; x8b]; mtime := 105 |}
  ∧ Tree.file_at ["data"; "sub"; "c.js.gz"] n
    = Some {| content := [x09]; mtime := 8 |}
  ∧ Tree.file_at ["data"; "img.png.gz"] n = None.
Proof. by vm_compute. Qed.

Example sample_run_again :
  stdout (gzip_web_files Sample.os
            (Sample.world_of (cwd (gzip_web_files Sample.os Sample.w).1))).1
  = [all_already_compressed].
Proof. reflexivity. Qed.

Example directory_in_the_way :
  (gzip_web_files Sample.os
     (Sample.world_of (Dir 1 [("data", Dir 2 [
        ("x.css", File {| content := [x61]; mtime := 7 |});
        ("x.css.gz", Dir 3 [])])]))).2
  = Raise IsADirectoryError.
Proof. reflexivity. Qed.

Example compressed_files_sample :
  List.filter (stale Sample.tree) (files_of Sample.tree)
  = [["data"; "a.html"]; ["data"; "b.css"]].
Proof. by vm_compute. Qed.

(** ** Facts about strings and pure paths *)

Module StrFacts.

Lemma app_cons a s t : String a s +:+ t = String a (s +:+ t).
Proof. reflexivity. Qed.

Lemma app_empty t : EmptyString +:+ t = t.
Proof. reflexivity. Qed.

Lemma app_assoc s t u : (s +:+ t) +:+ u = s +:+ (t +:+ u).
Proof. induction s; rewrite ?app_cons, ?app_empty; [done | by f_equal]. Qed.

Lemma take_drop n s : Str.take n s +:+ Str.drop n s = s.
Proof.
  revert s; induction n as [|n IH]; intros [|a s]; try done.
  cbn [Str.take Str.drop]. by rewrite app_cons, IH.
Qed.

Lemma length_drop n s :
  String.length (Str.drop n s) = (String.length s - n)%nat.
Proof. revert s; induction n as [|n IH]; intros [|a s]; simpl; auto. Qed.

Lemma length_app s t :
  String.length (s +:+ t) = (String.length s + String.length t)%nat.
Proof. induction s; rewrite ?app_cons; simpl; auto. Qed.

Lemma take_app s t : Str.take (String.length s) (s +:+ t) = s.
Proof. induction s; rewrite ?app_cons; simpl; [by destruct t | by f_equal]. Qed.

Lemma drop_app s t : Str.drop (String.length s) (s +:+ t) = t.
Proof. induction s; rewrite ?app_cons; simpl; auto. Qed.

Lemma app_inv_tail s1 s2 t : s1 +:+ t = s2 +:+ t → s1 = s2.
Proof.
  revert s2; induction s1 as [|a s1 IH]; intros [|b s2] H;
    rewrite ?app_cons, ?app_empty in H.
  - done.
  - apply (f_equal String.length) in H. simpl in H.
    rewrite length_app in H. lia.
  - apply (f_equal String.length) in H. simpl in H.
    rewrite length_app in H. lia.
  - injection H as -> H. f_equal. by apply IH.
Qed.

Lemma rfind_lt c s : -1 <= Str.rfind c s < Str.len s.
Proof.
  unfold Str.len. induction s as [|a s IH]; simpl; [lia|].
  destruct (0 <=? Str.rfind c s) eqn:E; [lia|].
  destruct (Ascii.eqb a c); lia.
Qed.

(** No dot in ["gz"], so the last dot of [s + ".gz"] is the one added. *)
Lemma rfind_dot_gz s : Str.rfind "." (s +:+ ".gz") = Str.len s.
Proof.
  unfold Str.len. induction s as [|a s IH]; [done|].
  rewrite app_cons. cbn [Str.rfind String.length]. rewrite IH.
  destruct (0 <=? Z.of_nat (String.length s)) eqn:E; lia.
Qed.

Lemma bound_nonneg s i :
  0 <= i <= Str.len s → Str.bound s i = Z.to_nat i.
Proof.
  intros H. unfold Str.bound.
  destruct (i <? 0) eqn:E; [lia|]. f_equal. lia.
Qed.

Lemma bound_neg s k :
  0 < k <= Str.len s → Str.bound s (- k) = Z.to_nat (Str.len s - k).
Proof.
  intros H. unfold Str.bound.
  destruct (- k <? 0) eqn:E; [|lia]. f_equal. lia.
Qed.

(** [name[:-len(suffix)] + suffix] is [name] when the suffix is not empty. *)
Lemma stem_suffix name :
  Path.name_suffix name ≠ EmptyString →
  Str.slice_to name (- Str.len (Path.name_suffix name))
    +:+ Path.name_suffix name = name.
Proof.
  unfold Path.name_suffix. pose proof (rfind_lt "." name) as Hr.
  destruct (0 <? Str.rfind "." name) eqn:E1; [|done].
  destruct (Str.rfind "." name <? Str.len name - 1) eqn:E2; [|done].
  intros _. cbn [andb]. unfold Str.slice_from, Str.slice_to.
  rewrite (bound_nonneg name (Str.rfind "." name)) by lia.
  assert (Str.len (Str.drop (Z.to_nat (Str.rfind "." name)) name)
          = Str.len name - Str.rfind "." name) as Hl.
  { unfold Str.len in *. rewrite length_drop. lia. }
  rewrite Hl, bound_neg by lia.
  replace (Str.len name - (Str.len name - Str.rfind "." name))
    with (Str.rfind "." name) by lia.
  apply take_drop.
Qed.

Lemma suffix_nonempty_name name :
  Path.name_suffix name ≠ EmptyString → name ≠ EmptyString.
Proof. by intros H ->. Qed.

(** The suffix of [name + ".gz"]. *)
Lemma suffix_gz name :
  Path.name_suffix (name +:+ ".gz")
  = if String.eqb name EmptyString then EmptyString else ".gz".
Proof.
  unfold Path.name_suffix. rewrite rfind_dot_gz.
  destruct name as [|a name]; [done|].
  assert (Str.len (String a name +:+ ".gz") = Str.len (String a name) + 3) as Hl.
  { unfold Str.len. rewrite length_app. simpl. lia. }
  rewrite Hl.
  assert (0 < Str.len (String a name)) as Hp by (unfold Str.len; simpl; lia).
  destruct (0 <? Str.len (String a name)) eqn:E1; [|lia].
  destruct (Str.len (String a name) <? Str.len (String a name) + 3 - 1) eqn:E2;
    [|lia].
  cbn [andb String.eqb]. unfold Str.slice_from.
  rewrite bound_nonneg by lia. unfold Str.len. rewrite Nat2Z.id.
  apply drop_app.
Qed.

End StrFacts.

Module PathFacts.

Lemma extensions_cases s :
  s ∈ extensions →
  s = ".html" ∨ s = ".css" ∨ s = ".js" ∨ s = ".json" ∨ s = ".svg" ∨ s = ".xml".
Proof. unfold extensions. rewrite !elem_of_union, !elem_of_singleton. tauto. Qed.

Lemma gz_not_extension : ".gz" ∉ extensions.
Proof. apply (bool_decide_unpack _). by vm_compute. Qed.

Lemma empty_not_extension : EmptyString ∉ extensions.
Proof. apply (bool_decide_unpack _). by vm_compute. Qed.

Lemma split_last (p : path) : p ≠ [] → p = Path.parent p ++ [Path.name p].
Proof. apply app_removelast_last. Qed.

Lemma eligible_nonempty p : Path.suffix p ∈ extensions → p ≠ [].
Proof. intros H ->. by apply empty_not_extension. Qed.

Lemma parent_artifact p : Path.parent (artifact p) = Path.parent p.
Proof. apply removelast_last. Qed.

Lemma name_artifact p : Path.name (artifact p) = Path.name p +:+ ".gz".
Proof. apply last_last. Qed.

Lemma artifact_nonempty p : artifact p ≠ [].
Proof. unfold artifact. by destruct (Path.parent p). Qed.


Lemma artifact_inj p q : p ≠ [] → q ≠ [] → artifact p = artifact q → p = q.
Proof.
  intros Hp Hq H. unfold artifact in H. apply app_inj_tail in H as [H1 H2].
  apply StrFacts.app_inv_tail in H2.
  rewrite (split_last p Hp), (split_last q Hq). by rewrite H1, H2.
Qed.

Lemma suffix_artifact p : Path.suffix (artifact p) ∉ extensions.
Proof.
  unfold Path.suffix. rewrite name_artifact, StrFacts.suffix_gz.
  destruct (String.eqb _ _);
    [apply empty_not_extension | apply gz_not_extension].
Qed.

Lemma artifact_not_source p q : Path.suffix q ∈ extensions → artifact p ≠ q.
Proof. intros H <-. by apply (suffix_artifact p). Qed.

(** What the script computes as [gz_path] is the artifact path. *)
Lemma with_suffix_gz p :
  Path.suffix p ∈ extensions →
  Path.with_suffix p (Path.suffix p +:+ ".gz") = Ok (artifact p).
Proof.
  intros H. unfold Path.with_suffix.
  assert (Path.suffix p ≠ EmptyString) as Hne.
  { intros E. rewrite E in H. by apply empty_not_extension. }
  assert (Path.name p ≠ EmptyString) as Hname
    by (by apply StrFacts.suffix_nonempty_name).
  assert (Str.contains "/" (Path.suffix p +:+ ".gz") = false
          ∧ Str.startswith "." (Path.suffix p +:+ ".gz") = true
          ∧ String.eqb (Path.suffix p +:+ ".gz") EmptyString = false
          ∧ String.eqb (Path.suffix p +:+ ".gz") "." = false) as (-> & -> & -> & ->).
  { apply extensions_cases in H.
    destruct H as [-> | [-> | [-> | [-> | [-> | ->]]]]]; by vm_compute. }
  cbn [negb andb orb].
  apply String.eqb_neq in Hname as ->. apply String.eqb_neq in Hne as ->.
  unfold artifact. do 3 f_equal. unfold Path.suffix in *.
  rewrite <-StrFacts.app_assoc, StrFacts.stem_suffix; [done|].
  intros E. rewrite E in H. by apply empty_not_extension.
Qed.

(** [GzipFile] stores the name of the source in the header. *)
Lemma header_name_artifact p : gzip_header_name (artifact p) = Path.name p.
Proof.
  unfold gzip_header_name. rewrite name_artifact.
  assert (Str.len (Path.name p +:+ ".gz") = Str.len (Path.name p) + 3) as Hl.
  { unfold Str.len. rewrite StrFacts.length_app. simpl. lia. }
  assert (0 <= Str.len (Path.name p)) as Hp by (unfold Str.len; lia).
  unfold Str.slice_from, Str.slice_to. change (-3) with (- (3)).
  rewrite StrFacts.bound_neg by (rewrite Hl; lia). rewrite Hl.
  replace (Str.len (Path.name p) + 3 - 3) with (Str.len (Path.name p)) by lia.
  unfold Str.len at 1 3. rewrite Nat2Z.id, StrFacts.drop_app, StrFacts.take_app.
  destruct (3 <=? Str.len (Path.name p) + 3) eqn:E; [done | lia].
Qed.

End PathFacts.

(** ** Facts about the file system *)

Module TreeFacts.
Import Tree.

Lemma get_put_eq c x es : get c (put c x es) = Some x.
Proof.
  induction es as [|[d y] es IH]; simpl.
  - by rewrite String.eqb_refl.
  - destruct (String.eqb d c) eqn:E; simpl; rewrite E; [done | apply IH].
Qed.

Lemma get_put_ne c d x es : c ≠ d → get d (put c x es) = get d es.
Proof.
  intros Hne. induction es as [|[e y] es IH]; simpl.
  - by apply String.eqb_neq in Hne as ->.
  - destruct (String.eqb e c) eqn:E; simpl.
    + apply String.eqb_eq in E as ->.
      by apply String.eqb_neq in Hne as ->.
    + by rewrite IH.
Qed.

Lemma get_elem_of c x es : get c es = Some x → (c, x) ∈ es.
Proof.
  induction es as [|[d y] es IH]; simpl; [done|].
  destruct (String.eqb d c) eqn:E.
  - apply String.eqb_eq in E as ->. intros [= ->]. left.
  - intros H. right. by apply IH.
Qed.

Lemma lookup_file_cons c q f : lookup (c :: q) (File f) = None.
Proof. done. Qed.

Lemma lookup_app d q n :
  lookup (d ++ q) n = lookup d n ≫= lookup q.
Proof.
  revert n; induction d as [|c d IH]; intros n; simpl; [done|].
  destruct n as [f|m es]; [done|]. destruct (get c es); [apply IH | done].
Qed.

Lemma parent_cons c c' (p : path) :
  Path.parent (c :: c' :: p) = c :: Path.parent (c' :: p).
Proof. done. Qed.

Lemma store_cons c p f t m es :
  p ≠ [] →
  store (c :: p) f t (Dir m es) =
    match get c es with
    | Some x =>
        match store p f t x with
        | Ok x' => Ok (Dir m (put c x' es))
        | Raise e => Raise e
        end
    | None => Raise FileNotFoundError
    end.
Proof. by destruct p. Qed.

(** What a successful [store] changes: the file at [p]; and, when it
    creates that file, the modification time of the directory of [p]. *)
Lemma store_spec p f t n n' :
  store p f t n = Ok n' →
  lookup p n' = Some (File f) ∧
  ∀ q, q ≠ p →
    match lookup q n with
    | Some (File g) => lookup q n' = Some (File g)
    | Some (Dir m es) =>
        ∃ m' es', lookup q n' = Some (Dir m' es') ∧ (q ≠ Path.parent p → m' = m)
    | None => lookup q n' = None
    end.
Proof.
  revert n n'; induction p as [|c p IH]; intros [g|m es] n' H;
    try discriminate H.
  cbn [store] in H. destruct p as [|c' p].
  - (* the file is an entry of this directory *)
    assert (∃ m', n' = Dir m' (put c (File f) es)
              ∧ ∀ x, get c es = Some x → ∃ g, x = File g) as (m' & -> & Hc).
    { destruct (get c es) as [[g|? ?]|]; inversion H; eauto.
      - eexists; split; [done|]. intros ? [= <-]; eauto.
      - eexists; split; [done|]. intros ? [=]. }
    clear H. split; [cbn; by rewrite get_put_eq|].
    intros [|d q] Hq; [cbn; eexists _, _; split; [done|]; by intros []|].
    cbn [lookup]. destruct (decide (c = d)) as [<-|Hne].
    + rewrite get_put_eq. destruct q as [|e q]; [done|].
      destruct (get c es) as [x|] eqn:E; [|done].
      destruct (Hc x eq_refl) as [g ->]. done.
    + rewrite get_put_ne by done. destruct (get d es) as [x|]; [|done].
      destruct (lookup q x) as [[g|m0 es0]|]; eauto.
  - (* the file lies below an entry of this directory *)
    destruct (get c es) as [x|] eqn:E; [|discriminate H].
    destruct (store (c' :: p) f t x) as [x'|] eqn:Hs; inversion H; subst n'.
    destruct (IH _ _ Hs) as [IH1 IH2]. split.
    { cbn [lookup]. by rewrite get_put_eq. }
    intros [|d q] Hq; [cbn; eauto|].
    cbn [lookup]. destruct (decide (c = d)) as [<-|Hne].
    + rewrite get_put_eq, E.
      assert (q ≠ c' :: p) as Hq' by congruence.
      specialize (IH2 q Hq').
      destruct (lookup q x) as [[g|m0 es0]|]; [done| |done].
      destruct IH2 as (m' & es' & -> & Hm). exists m', es'. split; [done|].
      intros Hp. apply Hm. rewrite parent_cons in Hp. congruence.
    + rewrite get_put_ne by done. destruct (get d es) as [y|]; [|done].
      destruct (lookup q y) as [[g|m0 es0]|]; eauto.
Qed.

Lemma file_at_store_eq p f t n n' :
  store p f t n = Ok n' → file_at p n' = Some f.
Proof. intros [H _]%store_spec. unfold file_at. by rewrite H. Qed.

(** Frame: every other regular file is as it was. *)
Lemma file_at_store_ne p q f t n n' :
  store p f t n = Ok n' → q ≠ p → file_at q n' = file_at q n.
Proof.
  intros [_ H]%store_spec Hq. specialize (H q Hq). unfold file_at.
  destruct (lookup q n) as [[g|m es]|]; [by rewrite H| |by rewrite H].
  by destruct H as (? & ? & -> & _).
Qed.

(** Frame: what [stat] reports elsewhere is as it was, the directory of
    the stored file apart. *)
Lemma stat_store_ne p q f t n n' :
  store p f t n = Ok n' → q ≠ p → q ≠ Path.parent p →
  node_stat <$> lookup q n' = node_stat <$> lookup q n.
Proof.
  intros [_ H]%store_spec Hq Hp. specialize (H q Hq).
  destruct (lookup q n) as [[g|m es]|]; [by rewrite H| |by rewrite H].
  destruct H as (? & ? & -> & ->); done.
Qed.

Lemma lookup_parent_dir d c n x :
  lookup (d ++ [c]) n = Some x → ∃ m es, lookup d n = Some (Dir m es).
Proof.
  revert n; induction d as [|e d IH]; intros [g|m es]; cbn; try done; eauto.
  destruct (get e es); [apply IH | done].
Qed.

(** [store] succeeds when the directory of the path exists and the path
    is not itself a directory. *)
Lemma store_ok d c f t n :
  is_Some (lookup d n ≫= λ x, match x with Dir _ _ => Some x | _ => None end) →
  (∀ m es, lookup (d ++ [c]) n ≠ Some (Dir m es)) →
  ∃ n', store (d ++ [c]) f t n = Ok n'.
Proof.
  revert n; induction d as [|e d IH]; intros [g|m es] [y Hy] Hc; try done.
  - cbn in *. destruct (get c es) as [[g|m0 es0]|]; eauto.
    by destruct (Hc m0 es0).
  - cbn [app]. rewrite store_cons by (by destruct d).
    cbn [app lookup] in Hy, Hc. destruct (get e es) as [x|]; [|done].
    destruct (IH x) as [x' ->]; eauto.
Qed.

Lemma store_sibling p a c f t n :
  file_at (Path.parent p ++ [a]) n = Some c →
  (∀ m es, lookup p n ≠ Some (Dir m es)) → p ≠ [] →
  ∃ n', store p f t n = Ok n'.
Proof.
  intros Ha Hp Hne. rewrite (PathFacts.split_last p Hne) in Hp |- *.
  apply store_ok; [|done].
  unfold file_at in Ha. destruct (lookup _ n) as [x|] eqn:E; [|done].
  apply lookup_parent_dir in E as (m & es & ->). by eexists.
Qed.

(** Every path below a directory is among those that [walk] yields. *)
Lemma walk_complete d q n x :
  q ≠ [] → lookup q n = Some x → d ++ q ∈ walk d n.
Proof.
  revert d n; induction q as [|c q IH]; intros d [g|m es] Hq H; try done.
  cbn [lookup] in H. destruct (get c es) as [y|] eqn:E; [|done].
  apply get_elem_of in E. cbn [walk]. apply elem_of_app.
  destruct q as [|c' q].
  - left. apply list_elem_of_fmap. by exists (c, y).
  - right. apply list_elem_of_In, in_flat_map. exists (c, y).
    split; [by apply list_elem_of_In|]. apply list_elem_of_In.
    replace (d ++ c :: c' :: q) with ((d ++ [c]) ++ c' :: q)
      by (by rewrite <-app_assoc).
    by apply IH.
Qed.

End TreeFacts.

(** ** One turn of the loop *)

Section Body.

Variable os : platform.

Ltac run :=
  unfold mbind, M_bind, is_file, lift, path_exists, stat, mret, M_ret, print;
  cbv beta iota zeta.

Lemma loop_body_ineligible p s w :
  ¬ eligible p (cwd w) → loop_body os p s w = (w, Ok s).
Proof.
  intros H. unfold loop_body. destruct s as [a b]. run.
  destruct (bool_decide (is_Some (Tree.file_at p (cwd w)))) eqn:E1; [|done].
  destruct (bool_decide (Path.suffix p ∈ extensions)) eqn:E2; [|done].
  apply bool_decide_eq_true in E1, E2. by destruct H.
Qed.

Lemma file_at_lookup p n f :
  Tree.file_at p n = Some f ↔ Tree.lookup p n = Some (File f).
Proof.
  unfold Tree.file_at. destruct (Tree.lookup p n) as [[g|m es]|]; naive_solver.
Qed.

(** The freshness check of the script, when [p] is a regular file. *)
Lemma newer_check p f w :
  Tree.file_at p (cwd w) = Some f →
  (if bool_decide (is_Some (Tree.lookup (artifact p) (cwd w))) then
     gz_st ← stat (artifact p);
     src_st ← stat p;
     mret (st_mtime gz_st >? st_mtime src_st)
   else mret false) w = (w, Ok (newer p (cwd w))).
Proof.
  intros Hf%file_at_lookup. unfold newer. run. rewrite Hf.
  destruct (Tree.lookup (artifact p) (cwd w)) as [g|] eqn:Eg.
  - rewrite bool_decide_eq_true_2 by done. run. by rewrite Eg, Hf.
  - rewrite bool_decide_eq_false_2 by (by intros [? ?]). done.
Qed.

Lemma loop_body_newer p s w :
  eligible p (cwd w) → newer p (cwd w) = true → loop_body os p s w = (w, Ok s).
Proof.
  intros [[f Hf] H2] H. unfold loop_body. destruct s as [a b].
  unfold mbind at 1, M_bind at 1. unfold is_file.
  rewrite !bool_decide_eq_true_2 by done. cbn [andb].
  unfold mbind at 1, M_bind at 1.
  rewrite PathFacts.with_suffix_gz by done. unfold lift.
  unfold mbind at 1, M_bind at 1. unfold path_exists.
  unfold mbind at 1, M_bind at 1.
  by rewrite (newer_check _ f), H.
Qed.

Lemma percent_run saved original_size w :
  (if original_size >? 0 then
     q ← truediv saved original_size;
     mret (q * inject_Z 100)%Q
   else mret (inject_Z 0)) w = (w, Ok (percentage saved original_size)).
Proof.
  unfold percentage. destruct (original_size >? 0) eqn:E; [|done].
  unfold mbind, M_bind, truediv.
  destruct (original_size =? 0) eqn:E0; [lia | done].
Qed.

Lemma store_existing q g f t n :
  Tree.file_at q n = Some g → q ≠ [] → ∃ n', Tree.store q f t n = Ok n'.
Proof.
  intros Hg Hq. apply (TreeFacts.store_sibling q (Path.name q) g).
  - by rewrite <-PathFacts.split_last.
  - rewrite file_at_lookup in Hg. intros m es. by rewrite Hg.
  - done.
Qed.

Lemma loop_body_outcome p s w : body_outcome os p s w (loop_body os p s w).
Proof.
  destruct (bool_decide (eligible p (cwd w))) eqn:He.
  2:{ apply bool_decide_eq_false in He.
      rewrite loop_body_ineligible by done. by constructor. }
  apply bool_decide_eq_true in He.
  destruct (newer p (cwd w)) eqn:Hn.
  { rewrite loop_body_newer by done. by constructor. }
  pose proof He as [[f Hf] Hs].
  unfold loop_body. destruct s as [a b].
  unfold mbind at 1, M_bind at 1. unfold is_file.
  rewrite !bool_decide_eq_true_2 by done. cbn [andb].
  unfold mbind at 1, M_bind at 1.
  rewrite PathFacts.with_suffix_gz by done. unfold lift.
  unfold mbind at 1, M_bind at 1. unfold path_exists.
  unfold mbind at 1, M_bind at 1.
  rewrite (newer_check _ f), Hn by done.
  unfold mbind at 1, M_bind at 1. unfold stat at 1.
  rewrite (proj1 (file_at_lookup _ _ _) Hf).
  unfold mbind at 1, M_bind at 1. unfold open_rb.
  cbv zeta.
  destruct (open_fault os rb p (with_open rb p w)) as [errno|] eqn:Hrb.
  { by apply body_open_rb_fault. }
  change (cwd (with_open rb p w)) with (cwd w).
  rewrite (proj1 (file_at_lookup _ _ _) Hf).
  unfold mbind at 1, M_bind at 1. unfold gzip_open_wb. cbv zeta.
  destruct (open_fault os wb (artifact p) _) as [errno|] eqn:Hwb.
  { by apply body_open_wb_fault. }
  change (cwd (with_open wb (artifact p) (with_open rb p w))) with (cwd w).
  change (now os (with_open wb (artifact p) (with_open rb p w)))
    with (now os w).
  destruct (Tree.store (artifact p) _ (now os w) (cwd w)) as [n3|e] eqn:Hst.
  2:{ by apply body_create_error. }
  unfold mbind at 1, M_bind at 1. unfold copyfileobj. cbv zeta.
  cbn [gz_fileobj gz_level gz_fname gz_mtime].
  set (w3 := tick (tick (with_cwd n3 (with_open wb (artifact p) (with_open rb p w))))).
  change (cwd w3) with n3.
  assert (Tree.file_at p n3 = Some f) as Hf3.
  { rewrite <-Hf. eapply TreeFacts.file_at_store_ne; [done|].
    intros E. by apply (PathFacts.artifact_not_source p p). }
  rewrite Hf3. cbn [from_option].
  pose proof (TreeFacts.file_at_store_eq _ _ _ _ _ Hst) as Hg3.
  destruct (copy_fault os p (artifact p) w3) as [[errno remains]|] eqn:Hcp.
  - destruct (store_existing (artifact p) _
                {| content := remains; mtime := now os w3 |} (now os w3) n3 Hg3)
      as [n4 Hn4]; [apply PathFacts.artifact_nonempty|].
    rewrite Hn4. by eapply body_copy_fault.
  - rewrite PathFacts.header_name_artifact.
    change (now os (tick (with_cwd n3 (with_open wb (artifact p) (with_open rb p w)))))
      with (clock os (S (ticks w))).
    set (stream := gzip_compress os 9 (Path.name p) (clock os (S (ticks w))) (content f)).
    destruct (store_existing (artifact p) _
                {| content := stream; mtime := now os w3 |} (now os w3) n3 Hg3)
      as [n4 Hn4]; [apply PathFacts.artifact_nonempty|].
    rewrite Hn4.
    unfold mbind at 1, M_bind at 1. unfold stat at 1.
    change (cwd (tick (with_cwd n4 w3))) with n4.
    rewrite (proj1 (file_at_lookup _ _ _) (TreeFacts.file_at_store_eq _ _ _ _ _ Hn4)).
    unfold mbind at 1, M_bind at 1. rewrite percent_run.
    unfold mbind, M_bind, print, mret, M_ret.
    by apply (body_compressed os p (a, b) w f n3 n4).
Qed.
End Body.

(** ** The loop and the whole run *)

Section Loop.

Context {A S : Type}.
Implicit Types (body : A → S → M S) (I : world → Prop).

Lemma for_each_cons x xs body s w :
  for_each (x :: xs) body s w =
    match body x s w with
    | (w1, Ok s1) => for_each xs body s1 w1
    | (w1, Raise e) => (w1, Raise e)
    end.
Proof. reflexivity. Qed.

Lemma for_each_app xs ys body s w :
  for_each (xs ++ ys) body s w =
    match for_each xs body s w with
    | (w1, Ok s1) => for_each ys body s1 w1
    | (w1, Raise e) => (w1, Raise e)
    end.
Proof.
  revert s w; induction xs as [|x xs IH]; intros s w; [done|].
  cbn [app]. rewrite !for_each_cons.
  destruct (body x s w) as [w1 [s1|e]]; [apply IH | done].
Qed.

(** A property of the world that every turn keeps holds when the loop
    ends, however it ends. *)
Lemma for_each_invariant I xs body :
  (∀ x s w, x ∈ xs → I w → I (body x s w).1) →
  ∀ s w, I w → I (for_each xs body s w).1.
Proof.
  induction xs as [|x xs IH]; intros Hstep s w Hw; [done|].
  rewrite for_each_cons.
  pose proof (Hstep x s w (list_elem_of_here _ _) Hw) as H1.
  destruct (body x s w) as [w1 [s1|e]]; [|done].
  apply IH; [|done]. intros y ? ? Hy. apply Hstep. by right.
Qed.

(** The same for a property that only the turns that return keep, when
    the loop returns. *)
Lemma for_each_invariant_ok I xs body :
  (∀ x s w s' w', x ∈ xs → I w → body x s w = (w', Ok s') → I w') →
  ∀ s w s' w', I w → for_each xs body s w = (w', Ok s') → I w'.
Proof.
  induction xs as [|x xs IH]; intros Hstep s w s' w' Hw H.
  { by injection H as <- _. }
  rewrite for_each_cons in H.
  destruct (body x s w) as [w1 [s1|e]] eqn:Hb; [|done].
  eapply IH; [|by eapply Hstep; [left|..]|done].
  intros y ? ? ? ? Hy. apply Hstep. by right.
Qed.

(** The loop returns exactly when every turn returns. *)
Lemma for_each_ok_split l1 x l2 body s w s' w' :
  for_each (l1 ++ x :: l2) body s w = (w', Ok s') →
  ∃ s1 w1 s2 w2,
    for_each l1 body s w = (w1, Ok s1) ∧ body x s1 w1 = (w2, Ok s2)
    ∧ for_each l2 body s2 w2 = (w', Ok s').
Proof.
  rewrite for_each_app. destruct (for_each l1 body s w) as [w1 [s1|e]]; [|done].
  rewrite for_each_cons. destruct (body x s1 w1) as [w2 [s2|e]] eqn:Hb; [|done].
  intros H. by exists s1, w1, s2, w2.
Qed.

(** The loop raises exactly when a turn raises: it ends there, with the
    exception and the world of that turn. *)
Lemma for_each_raise xs body s w w' e :
  for_each xs body s w = (w', Raise e) ↔
  ∃ l1 x l2 s1 w1,
    xs = l1 ++ x :: l2 ∧ for_each l1 body s w = (w1, Ok s1)
    ∧ body x s1 w1 = (w', Raise e).
Proof.
  split.
  - revert s w; induction xs as [|x xs IH]; intros s w H; [done|].
    rewrite for_each_cons in H.
    destruct (body x s w) as [w1 [s1|e1]] eqn:Hb.
    + destruct (IH _ _ H) as (l1 & y & l2 & s2 & w2 & -> & H1 & H2).
      exists (x :: l1), y, l2, s2, w2. split; [done|].
      by rewrite for_each_cons, Hb.
    + exists [], x, xs, s, w. by rewrite Hb, <-H.
  - intros (l1 & x & l2 & s1 & w1 & -> & H1 & H2).
    by rewrite for_each_app, H1, for_each_cons, H2.
Qed.

End Loop.

Section Run.

Variable os : platform.

Lemma gzip_web_files_missing w :
  Tree.lookup ["data"] (cwd w) = None →
  gzip_web_files os w = (with_line data_not_found w, Ok tt).
Proof.
  intros H. unfold gzip_web_files, mbind, M_bind, path_exists.
  by rewrite H, bool_decide_eq_false_2 by (by intros [? ?]).
Qed.

Lemma gzip_web_files_found w n :
  Tree.lookup ["data"] (cwd w) = Some n →
  gzip_web_files os w =
    match for_each (Tree.walk ["data"] n) (loop_body os) (0, 0) w with
    | (w', Ok locals) => (with_line (closing_line locals) w', Ok tt)
    | (w', Raise e) => (w', Raise e)
    end.
Proof.
  intros H. unfold gzip_web_files, mbind, M_bind, path_exists, rglob.
  rewrite H, bool_decide_eq_true_2 by done. cbn [negb].
  cbv beta iota. rewrite H.
  destruct (for_each _ _ _ w) as [w' [[c t]|e]]; [|done].
  unfold closing_line. cbn [fst snd]. by destruct (c >? 0).
Qed.

(** What a turn changes. *)
Lemma body_effect p s w r :
  body_outcome os p s w r →
  r = (w, Ok s) ∨ eligible p (cwd w) ∧ newer p (cwd w) = false ∧ touches p w r.1.
Proof.
  assert (∀ q f1 t1 f2 t2 n n3 n4,
    Tree.store (artifact p) f1 t1 n = Ok n3 →
    Tree.store (artifact p) f2 t2 n3 = Ok n4 →
    (q ≠ artifact p → Tree.file_at q n4 = Tree.file_at q n)
    ∧ (q ≠ artifact p → q ≠ Path.parent p →
       node_stat <$> Tree.lookup q n4 = node_stat <$> Tree.lookup q n)) as Hst.
  { intros q f1 t1 f2 t2 n n3 n4 H3 H4. split.
    - intros Hq. rewrite (TreeFacts.file_at_store_ne _ _ _ _ _ _ H4 Hq).
      apply (TreeFacts.file_at_store_ne _ _ _ _ _ _ H3 Hq).
    - intros Hq Hp. rewrite <-(PathFacts.parent_artifact p) in Hp.
      rewrite (TreeFacts.stat_store_ne _ _ _ _ _ _ H4 Hq Hp).
      apply (TreeFacts.stat_store_ne _ _ _ _ _ _ H3 Hq Hp). }
  assert (∀ A (l : list A), ∃ ls, l = l ++ ls) as Hnil.
  { intros A l. exists []. by rewrite app_nil_r. }
  destruct 1; [by left | by left | right..];
    (split; [by (done || (split; [eexists|]))|]); (split; [done|]).
  - split; cbn; eauto.
  - split; cbn; eauto. rewrite <-app_assoc. by right.
  - split; cbn; eauto. rewrite <-app_assoc. by right.
  - match goal with
    | Ha : Tree.store _ _ _ (cwd w) = Ok ?n3,
      Hb : Tree.store _ _ _ ?n3 = Ok _ |- _ =>
        pose proof (λ q, Hst q _ _ _ _ _ _ _ Ha Hb) as Hq
    end.
    split; cbn; [apply Hq | apply Hq | | eauto].
    rewrite <-app_assoc. by right.
  - match goal with
    | Ha : Tree.store _ _ _ (cwd w) = Ok ?n3,
      Hb : Tree.store _ _ _ ?n3 = Ok _ |- _ =>
        pose proof (λ q, Hst q _ _ _ _ _ _ _ Ha Hb) as Hq
    end.
    split; cbn; [apply Hq | apply Hq | | eauto].
    rewrite <-app_assoc. by right.
Qed.
End Run.

Section RunFacts.

Variable os : platform.

(** The run is the loop over [files_of], between two [print]s. *)
Lemma gzip_web_files_loop w :
  gzip_web_files os w =
    match Tree.lookup data_dir (cwd w) with
    | None => (with_line data_not_found w, Ok tt)
    | Some _ =>
        match for_each (files_of (cwd w)) (loop_body os) (0, 0) w with
        | (w', Ok locals) => (with_line (closing_line locals) w', Ok tt)
        | (w', Raise e) => (w', Raise e)
        end
    end.
Proof.
  unfold files_of. destruct (Tree.lookup data_dir (cwd w)) as [n|] eqn:E.
  - by apply gzip_web_files_found.
  - by apply gzip_web_files_missing.
Qed.

(** A property of the world that printing and every turn of the loop keep
    holds after the run, however it ends. *)
Lemma run_invariant (I : world → Prop) w :
  (∀ l w', I w' → I (with_line l w')) →
  (∀ x s w', x ∈ files_of (cwd w) → I w' → I (loop_body os x s w').1) →
  I w → I (gzip_web_files os w).1.
Proof.
  intros Hp Hb Hw. rewrite gzip_web_files_loop.
  destruct (Tree.lookup data_dir (cwd w)); [|by apply Hp].
  pose proof (for_each_invariant I _ _ Hb (0, 0) w Hw) as H.
  destruct (for_each _ _ _ w) as [w' [locals|e]]; [by apply Hp | done].
Qed.

Lemma run_ok w w' :
  gzip_web_files os w = (w', Ok tt) →
  Tree.lookup data_dir (cwd w) = None ∧ w' = with_line data_not_found w
  ∨ ∃ locals w1,
      for_each (files_of (cwd w)) (loop_body os) (0, 0) w = (w1, Ok locals)
      ∧ w' = with_line (closing_line locals) w1.
Proof.
  rewrite gzip_web_files_loop.
  destruct (Tree.lookup data_dir (cwd w)); [|intros [= <-]; by left].
  destruct (for_each _ _ _ w) as [w1 [locals|e]]; [|done].
  intros [= <-]. right. by eexists _, _.
Qed.

Lemma newer_files p n f gz :
  Tree.file_at p n = Some f → Tree.file_at (artifact p) n = Some gz →
  newer p n = (mtime gz >? mtime f).
Proof.
  intros Hf%file_at_lookup Hg%file_at_lookup. unfold newer. by rewrite Hf, Hg.
Qed.

Lemma source_nonempty p n : eligible p n → p ≠ [].
Proof. intros [_ H]. by apply PathFacts.eligible_nonempty. Qed.

(** Two sources do not share an artifact. *)
Lemma artifact_apart p x :
  Path.suffix p ∈ extensions → Path.suffix x ∈ extensions → x ≠ p →
  artifact p ≠ artifact x.
Proof.
  intros Hp Hx Hne E. apply Hne. symmetry.
  apply PathFacts.artifact_inj; by try apply PathFacts.eligible_nonempty.
Qed.

(** A turn for another file leaves a source and its artifact alone. *)
Lemma other_turn_frame p x s w :
  Path.suffix p ∈ extensions → x ≠ p →
  let w' := (loop_body os x s w).1 in
  Tree.file_at p (cwd w') = Tree.file_at p (cwd w)
  ∧ Tree.file_at (artifact p) (cwd w') = Tree.file_at (artifact p) (cwd w)
  ∧ ∃ evs, (opens w' = opens w ++ evs)
           ∧ ((rb, p) ∉ evs) ∧ ((wb, artifact p) ∉ evs).
Proof.
  intros Hp Hne w'. subst w'.
  destruct (body_effect os x s w _ (loop_body_outcome os x s w))
    as [->|([_ Hx] & _ & [Hf _ Ho _])].
  { cbn [fst]. repeat split. exists []. rewrite app_nil_r.
    repeat split; apply not_elem_of_nil. }
  pose proof (artifact_apart p x Hp Hx Hne) as Ha.
  repeat split.
  - apply Hf. intros E. by apply (PathFacts.artifact_not_source x p).
  - by apply Hf.
  - destruct Ho as [Ho|Ho];
      [exists [(rb, x)] | exists [(rb, x); (wb, artifact x)]];
      (split; [exact Ho|]);
      split; intros H; rewrite ?elem_of_cons, ?elem_of_nil in H;
      destruct_or! H; by simplify_eq.
Qed.

(** *** A file whose artifact is newer *)

Lemma kept_when_newer p f gz w :
  Tree.file_at p (cwd w) = Some f → Path.suffix p ∈ extensions →
  Tree.file_at (artifact p) (cwd w) = Some gz → mtime gz > mtime f →
  let w' := (gzip_web_files os w).1 in
  Tree.file_at p (cwd w') = Some f
  ∧ Tree.file_at (artifact p) (cwd w') = Some gz
  ∧ ∃ evs, (opens w' = opens w ++ evs)
           ∧ ((rb, p) ∉ evs) ∧ ((wb, artifact p) ∉ evs).
Proof.
  intros Hf Hs Hg Hm.
  apply (run_invariant (λ w',
    Tree.file_at p (cwd w') = Some f
    ∧ Tree.file_at (artifact p) (cwd w') = Some gz
    ∧ ∃ evs, (opens w' = opens w ++ evs)
             ∧ ((rb, p) ∉ evs) ∧ ((wb, artifact p) ∉ evs))).
  - intros l w' H. exact H.
  - intros x s w' _ (Hf' & Hg' & evs & Ho & Hr & Hw).
    destruct (decide (x = p)) as [->|Hne].
    + rewrite loop_body_newer; [by eauto 10| by split; [eexists|] |].
      rewrite (newer_files p _ f gz); [|done..]. apply Z.gtb_lt. lia.
    + destruct (other_turn_frame p x s w' Hs Hne)
        as (-> & -> & evs' & -> & Hr' & Hw').
      repeat split; [done..|]. exists (evs ++ evs').
      rewrite Ho, <-app_assoc. split; [done|].
      split; rewrite elem_of_app; tauto.
  - repeat split; [done..|]. exists []. rewrite app_nil_r.
    repeat split; apply not_elem_of_nil.
Qed.

(** *** A file whose artifact is not newer *)

Lemma newer_stat p f n n' :
  Tree.file_at p n = Some f → Tree.file_at p n' = Some f →
  node_stat <$> Tree.lookup (artifact p) n'
    = node_stat <$> Tree.lookup (artifact p) n →
  newer p n' = newer p n.
Proof.
  intros Hf%file_at_lookup Hf'%file_at_lookup H. unfold newer.
  rewrite Hf, Hf'.
  destruct (Tree.lookup (artifact p) n), (Tree.lookup (artifact p) n');
    cbn [fmap option_fmap option_map] in H; try done.
  injection H as H. by rewrite H.
Qed.

(** A turn that returns for a source that is not newer has written a
    fresh gzip stream of the source to its artifact. *)
Lemma turn_regenerates p s w w' s' f :
  loop_body os p s w = (w', Ok s') →
  Tree.file_at p (cwd w) = Some f → Path.suffix p ∈ extensions →
  newer p (cwd w) = false →
  let stream :=
    gzip_compress os 9 (Path.name p) (clock os (S (ticks w))) (content f) in
  let original_size := Z.of_nat (List.length (content f)) in
  let compressed_size := Z.of_nat (List.length stream) in
  let saved := original_size - compressed_size in
  Tree.file_at (artifact p) (cwd w')
    = Some {| content := stream; mtime := clock os (S (S (ticks w))) |}
  ∧ Tree.file_at p (cwd w') = Some f
  ∧ opens w' = opens w ++ [(rb, p); (wb, artifact p)]
  ∧ stdout w' = stdout w ++ [file_compressed (Path.name p) original_size
                              compressed_size (percentage saved original_size)]
  ∧ s' = (s.1 + 1, s.2 + saved).
Proof.
  intros H Hf Hs Hn. pose proof (loop_body_outcome os p s w) as Ho.
  rewrite H in Ho. inversion Ho; subst; try congruence.
  { exfalso. match goal with H : ¬ eligible _ _ |- _ => apply H end.
    by split; [eexists|]. }
  assert (f0 = f) as -> by congruence.
  match goal with
  | H3 : Tree.store _ _ _ (cwd w) = Ok ?n3,
    H4 : Tree.store _ _ _ ?n3 = Ok _ |- _ =>
      pose proof (TreeFacts.file_at_store_eq _ _ _ _ _ H4) as Hg;
      pose proof (TreeFacts.file_at_store_ne _ p _ _ _ _ H4) as Hp4;
      pose proof (TreeFacts.file_at_store_ne _ p _ _ _ _ H3) as Hp3
  end.
  cbn. repeat split; [done| |by rewrite <-app_assoc].
  rewrite Hp4, Hp3; [done|..];
    intros E; by apply (PathFacts.artifact_not_source p p).
Qed.

Lemma stat_dir n x m es :
  node_stat <$> x = node_stat <$> Some (Dir m es) →
  x = Some n → ∃ m' es', n = Dir m' es'.
Proof. intros H ->. destruct n; [done | eauto]. Qed.

(** A source is a regular file in a directory. *)
Lemma eligible_parent_dir x n :
  eligible x n → ∃ m es, Tree.lookup (Path.parent x) n = Some (Dir m es).
Proof.
  intros [[f Hf%file_at_lookup] Hs].
  rewrite (PathFacts.split_last x) in Hf by (by apply PathFacts.eligible_nonempty).
  by apply TreeFacts.lookup_parent_dir in Hf.
Qed.

Lemma turn_stdout x s w :
  ∃ ls, stdout (loop_body os x s w).1 = stdout w ++ ls.
Proof.
  destruct (body_effect os x s w _ (loop_body_outcome os x s w))
    as [->|(_ & _ & [_ _ _ H])]; [|done].
  exists []. by rewrite app_nil_r.
Qed.

(** The run regenerates the artifact of a source that is not newer,
    provided the turns before that of the source do not create files in
    a directory that has the name of the artifact. *)
Lemma run_regenerates p f w w' :
  gzip_web_files os w = (w', Ok tt) →
  p ∈ files_of (cwd w) →
  Tree.file_at p (cwd w) = Some f → Path.suffix p ∈ extensions →
  newer p (cwd w) = false →
  (∀ l1 x l2 m es,
     files_of (cwd w) = l1 ++ x :: l2 → Path.parent x = artifact p →
     Tree.lookup (artifact p) (cwd w) = Some (Dir m es) → p ∈ l1) →
  (∃ t m,
    Tree.file_at (artifact p) (cwd w')
      = Some {| content := gzip_compress os 9 (Path.name p) t (content f);
                mtime := m |})
  ∧ Tree.file_at p (cwd w') = Some f
  ∧ (∃ evs, (opens w' = opens w ++ evs)
            ∧ ((rb, p) ∈ evs) ∧ ((wb, artifact p) ∈ evs))
  ∧ (∃ ls t, (stdout w' = stdout w ++ ls) ∧ line_of os p f t ∈ ls).
Proof.
  intros Hrun Hin Hf Hs Hn Hord.
  apply run_ok in Hrun as [[Hd _]|(locals & wl & Hloop & ->)].
  { unfold files_of in Hin. rewrite Hd in Hin. by apply elem_of_nil in Hin. }
  destruct (list_elem_of_split_l _ _ Hin) as (l1 & l2 & Hfiles & Hl1).
  rewrite Hfiles in Hloop.
  apply for_each_ok_split in Hloop
    as (s1 & w1 & s2 & w2 & Hloop1 & Hturn & Hloop2).
  (* the turns before that of [p] *)
  assert (Tree.file_at p (cwd w1) = Some f
          ∧ node_stat <$> Tree.lookup (artifact p) (cwd w1)
              = node_stat <$> Tree.lookup (artifact p) (cwd w)
          ∧ (∃ evs, opens w1 = opens w ++ evs)
          ∧ (∃ ls, stdout w1 = stdout w ++ ls))
    as (Hf1 & Hst1 & [evs1 Ho1] & [ls1 Hl1']).
  { pose proof (for_each_invariant (λ w1,
      Tree.file_at p (cwd w1) = Some f
      ∧ node_stat <$> Tree.lookup (artifact p) (cwd w1)
          = node_stat <$> Tree.lookup (artifact p) (cwd w)
      ∧ (∃ evs, opens w1 = opens w ++ evs)
      ∧ (∃ ls, stdout w1 = stdout w ++ ls)) l1 (loop_body os)) as Hinv.
    replace w1 with (for_each l1 (loop_body os) (0, 0) w).1
      by (by rewrite Hloop1).
    apply Hinv; clear Hinv.
    - intros x s w0 Hx (Hf0 & Hst0 & [evs0 Ho0] & [ls0 Hl0]).
      assert (x ≠ p) as Hne by (by intros ->).
      destruct (body_effect os x s w0 _ (loop_body_outcome os x s w0))
        as [->|(Hel & _ & [Hfr Hsr Hor [ls Hlr]])]; [by eauto 10|].
      split; [|split; [|split]].
      + rewrite <-Hf0. apply Hfr. intros E.
        by apply (PathFacts.artifact_not_source x p).
      + rewrite <-Hst0. apply Hsr.
        * apply artifact_apart; [done|by destruct Hel|done].
        * intros E.
          destruct (eligible_parent_dir _ _ Hel) as (m & es & Hd).
          rewrite <-E in Hd. rewrite Hd in Hst0.
          destruct (Tree.lookup (artifact p) (cwd w)) as [n|] eqn:En; [|done].
          destruct (stat_dir n _ m es (eq_sym Hst0) eq_refl) as (m' & es' & ->).
          apply list_elem_of_split in Hx as (a & b & ->).
          apply Hl1, elem_of_app. left.
          apply (Hord a x (b ++ p :: l2) m' es'); [|done..].
          by rewrite Hfiles, <-app_assoc.
      + destruct Hor as [->| ->]; rewrite Ho0, <-app_assoc; eauto.
      + rewrite Hlr, Hl0, <-app_assoc. eauto.
    - split; [done|]. split; [done|].
      split; exists []; by rewrite app_nil_r. }
  (* the turn of [p] *)
  assert (newer p (cwd w1) = false) as Hn1
    by (by rewrite (newer_stat p f (cwd w) (cwd w1))).
  destruct (turn_regenerates p s1 w1 w2 s2 f Hturn Hf1 Hs Hn1)
    as (Hg2 & Hf2 & Ho2 & Hl2 & _).
  (* the turns after it, and the closing line *)
  assert ((∃ t m,
      Tree.file_at (artifact p) (cwd wl)
        = Some {| content := gzip_compress os 9 (Path.name p) t (content f);
                  mtime := m |})
    ∧ Tree.file_at p (cwd wl) = Some f
    ∧ (∃ evs, (opens wl = opens w ++ evs)
              ∧ ((rb, p) ∈ evs) ∧ ((wb, artifact p) ∈ evs))
    ∧ (∃ ls t, (stdout wl = stdout w ++ ls) ∧ line_of os p f t ∈ ls)) as Hend.
  { apply (for_each_invariant_ok (λ w',
      (∃ t m,
        Tree.file_at (artifact p) (cwd w')
          = Some {| content := gzip_compress os 9 (Path.name p) t (content f);
                    mtime := m |})
      ∧ Tree.file_at p (cwd w') = Some f
      ∧ (∃ evs, (opens w' = opens w ++ evs)
                ∧ ((rb, p) ∈ evs) ∧ ((wb, artifact p) ∈ evs))
      ∧ (∃ ls t, (stdout w' = stdout w ++ ls) ∧ line_of os p f t ∈ ls))
      l2 (loop_body os)) with (s := s2) (w := w2) (s' := locals); [| |done].
    - intros x s w0 s' w0' _
        ((t & m & Hg0) & Hf0 & (evs & Ho0 & Hr0 & Hw0) & (ls & t' & Hl0 & Hi0)) Hx.
      destruct (turn_stdout x s w0) as [ls' Hls']. rewrite Hx in Hls'.
      cbn [fst] in Hls'.
      assert (∃ ls t, (stdout w0' = stdout w ++ ls) ∧ line_of os p f t ∈ ls) as Hout.
      { exists (ls ++ ls'), t'. rewrite Hls', Hl0, <-app_assoc.
        split; [done|]. apply elem_of_app. by left. }
      destruct (decide (x = p)) as [->|Hne].
      + destruct (newer p (cwd w0)) eqn:Hn0.
        * rewrite loop_body_newer in Hx; [|by split; [eexists|]|done].
          injection Hx as <- <-. by eauto 10.
        * destruct (turn_regenerates p s w0 w0' s' f Hx Hf0 Hs Hn0)
            as (Hg' & Hf' & Ho' & _).
          split; [by eauto|]. split; [done|]. split; [|done].
          exists (evs ++ [(rb, p); (wb, artifact p)]).
          rewrite Ho', Ho0, <-app_assoc. split; [done|].
          split; apply elem_of_app; by left.
      + destruct (other_turn_frame p x s w0 Hs Hne) as (E1 & E2 & evs' & E3 & _).
        rewrite Hx in E1, E2, E3. cbn [fst] in E1, E2, E3.
        rewrite E1, E2. split; [by eauto|]. split; [done|]. split; [|done].
        exists (evs ++ evs'). rewrite E3, Ho0, <-app_assoc. split; [done|].
        split; apply elem_of_app; by left.
    - split; [by eauto|]. split; [done|]. split.
      + exists (evs1 ++ [(rb, p); (wb, artifact p)]).
        rewrite Ho2, Ho1, <-app_assoc. split; [done|].
        split; apply elem_of_app; right; repeat constructor.
      + eexists _, (clock os (S (ticks w1))).
        rewrite Hl2, Hl1', <-app_assoc. split; [done|].
        apply elem_of_app. right. left. }
  destruct Hend as (Hg & Hfl & Hev & ls & t & Hls & Hline).
  cbn [cwd opens stdout with_line]. repeat (split; [done|]).
  exists (ls ++ [closing_line locals]), t. rewrite Hls, <-app_assoc.
  split; [done|]. apply elem_of_app. by left.
Qed.

End RunFacts.

(** ** The order in which [rglob] yields the paths *)

Module WalkFacts.
Import Tree.

(** Induction on trees: a directory has the property when its entries do. *)
Lemma node_induction (P : node → Prop) :
  (∀ f, P (File f)) →
  (∀ m es, Forall (λ e, P e.2) es → P (Dir m es)) →
  ∀ n, P n.
Proof.
  intros HF HD. fix IH 1. intros [f|m es]; [apply HF|]. apply HD.
  induction es as [|[c x] es IHes]; constructor; [apply IH | apply IHes].
Qed.

Lemma well_formed_dir m es :
  well_formed (Dir m es) = true ↔
  NoDup es.*1 ∧ Forall (λ e, well_formed e.2 = true) es.
Proof.
  cbn [well_formed]. rewrite andb_true_iff, bool_decide_eq_true.
  by rewrite forallb_forall, Forall_forall; setoid_rewrite list_elem_of_In.
Qed.

Lemma walk_dir d m es :
  walk d (Dir m es) =
    map (λ e, Path.child d e.1) es
    ++ flat_map (λ e, walk (Path.child d e.1) e.2) es.
Proof. done. Qed.

(** [walk] yields paths below the directory only. *)
Lemma walk_below d n p : p ∈ walk d n → below d p.
Proof.
  revert d p; induction n as [f|m es IH] using node_induction; intros d p.
  { by intros ?%elem_of_nil. }
  rewrite walk_dir, elem_of_app. intros [H|H].
  - apply list_elem_of_fmap in H as ([c x] & -> & _). by exists [c].
  - apply list_elem_of_In, in_flat_map in H as ([c x] & Hin & H).
    apply list_elem_of_In in Hin, H.
    rewrite Forall_forall in IH.
    destruct (IH _ Hin _ _ H) as (q & Hq & ->).
    exists (c :: q). split; [done|]. unfold Path.child. cbn.
    by rewrite <-app_assoc.
Qed.

Lemma app_split_right {A} (xs ys l1 l2 : list A) x :
  xs ++ ys = l1 ++ x :: l2 → x ∉ xs →
  ∃ l1', l1 = xs ++ l1' ∧ ys = l1' ++ x :: l2.
Proof.
  revert l1; induction xs as [|a xs IH]; intros l1 H Hx; [by exists l1|].
  destruct l1 as [|b l1]; cbn in H; injection H as -> H.
  { destruct Hx. left. }
  destruct (IH l1 H) as (l1' & -> & ->); [|by exists l1'].
  intros ?. apply Hx. by right.
Qed.

Lemma flat_map_split {A B} (g : A → list B) es l1 x l2 :
  flat_map g es = l1 ++ x :: l2 →
  ∃ e1 e e2 a b,
    es = e1 ++ e :: e2 ∧ g e = a ++ x :: b ∧ l1 = flat_map g e1 ++ a.
Proof.
  revert l1; induction es as [|e es IH]; intros l1 H; cbn in H.
  { by destruct l1. }
  apply app_eq_inv in H as [(k & Hg & Hk)|(k & -> & Hk)].
  - destruct k as [|y k]; cbn in Hk.
    + rewrite app_nil_r in Hg. subst l1.
      destruct (IH [] (eq_sym Hk)) as (e1 & e0 & e2 & a & b & -> & Hg0 & Ha).
      exists (e :: e1), e0, e2, a, b. cbn.
      by rewrite <-app_assoc, <-Ha, app_nil_r.
    + injection Hk as -> ->. exists [], e, es, l1, k. by rewrite Hg.
  - destruct (IH k Hk) as (e1 & e0 & e2 & a & b & -> & Hg0 & ->).
    exists (e :: e1), e0, e2, a, b. cbn. by rewrite <-app_assoc.
Qed.

Lemma length_parent (p : path) :
  List.length (Path.parent p) = pred (List.length p).
Proof.
  unfold Path.parent. induction p as [|c [|c' p] IH]; cbn in *; [done..|].
  by rewrite IH.
Qed.

Lemma length_artifact p :
  List.length (artifact p) = S (pred (List.length p)).
Proof.
  unfold artifact. rewrite length_app, length_parent. cbn. lia.
Qed.

Lemma parent_app (d q : path) :
  q ≠ [] → Path.parent (d ++ q) = d ++ Path.parent q.
Proof. apply removelast_app. Qed.

Lemma unique_entry {A B} (es : list (A * B)) c y y' :
  NoDup es.*1 → (c, y) ∈ es → (c, y') ∈ es → y = y'.
Proof.
  induction es as [|[d z] es IH]; intros Hnd H1 H2.
  { by apply elem_of_nil in H1. }
  cbn in Hnd. apply NoDup_cons in Hnd as [Hd Hnd].
  apply elem_of_cons in H1 as [H1|H1], H2 as [H2|H2].
  - congruence.
  - injection H1 as -> ->. destruct Hd.
    apply list_elem_of_fmap. by exists (d, y').
  - injection H2 as -> ->. destruct Hd.
    apply list_elem_of_fmap. by exists (d, y).
  - by apply IH.
Qed.

Lemma length_below d p : below d p → (List.length d < List.length p)%nat.
Proof.
  intros (q & Hq & ->). rewrite length_app. destruct q; [done | cbn; lia].
Qed.

(** In a well-formed tree, a path comes before the paths that lie in the
    directory with the name of its artifact: [rglob] lists a directory
    before it descends into any of its subdirectories. *)
Lemma walk_order d n p x l1 l2 :
  well_formed n = true →
  walk d n = l1 ++ x :: l2 → p ∈ walk d n →
  Path.parent x = artifact p → p ∈ l1.
Proof.
  revert d p x l1 l2.
  induction n as [f|m es IH] using node_induction;
    intros d p x l1 l2 Hwf Hsplit Hp Hpar.
  { by destruct l1. }
  apply well_formed_dir in Hwf as [Hnd Hwf].
  rewrite walk_dir in Hsplit, Hp.
  set (g := λ e : string * node, walk (Path.child d e.1) e.2) in *.
  assert (List.length x = S (List.length p)) as Hlen.
  { apply (f_equal List.length) in Hpar.
    rewrite length_parent, length_artifact in Hpar.
    assert (below d p) as Hb%length_below.
    { apply (walk_below d (Dir m es)). by rewrite walk_dir. }
    lia. }
  assert (below d p) as Hbp.
  { apply (walk_below d (Dir m es)). by rewrite walk_dir. }
  apply length_below in Hbp.
  destruct (app_split_right _ _ _ _ _ Hsplit) as (l1' & -> & Hdeep).
  { intros ([c y] & -> & _)%list_elem_of_fmap.
    unfold Path.child in Hlen. rewrite length_app in Hlen. cbn in Hlen. lia. }
  apply elem_of_app. apply elem_of_app in Hp as [Hp|Hp]; [by left|right].
  apply list_elem_of_In, in_flat_map in Hp as ([c y] & Hin & Hp).
  apply list_elem_of_In in Hin, Hp.
  destruct (flat_map_split _ _ _ _ _ Hdeep)
    as (e1 & [c' y'] & e2 & a & b & Hes & Hge & ->).
  apply elem_of_app. right.
  assert (c' = c) as ->.
  { assert (x ∈ g (c', y')) as Hx
      by (rewrite Hge; apply elem_of_app; right; left).
    apply walk_below in Hx as (qx & Hqx & ->).
    apply walk_below in Hp as (qp & Hqp & ->).
    unfold artifact in Hpar. rewrite !parent_app in Hpar by done.
    unfold Path.child in Hpar. cbn [fst] in Hpar.
    rewrite <-!app_assoc in Hpar. apply app_inv_head in Hpar.
    by injection Hpar. }
  assert ((c, y') ∈ es) as Hin'.
  { rewrite Hes. apply elem_of_app. right. left. }
  assert (y' = y) as -> by (by eapply unique_entry).
  rewrite Forall_forall in IH, Hwf.
  by apply (IH _ Hin (Path.child d c) p x a b); [apply (Hwf _ Hin)|..].
Qed.

End WalkFacts.

(** ** What the run leaves alone, and which files it visits *)

Section Frame.
Variable os : platform.

Lemma with_line_keeps l w :
  cwd (with_line l w) = cwd w ∧ opens (with_line l w) = opens w.
Proof. done. Qed.

(** The run changes no regular file but the artifacts of the sources
    below [data/], and opens no other file. *)
Lemma run_frame w :
  let w' := (gzip_web_files os w).1 in
  (∀ q, (∀ p, p ∈ files_of (cwd w) → eligible p (cwd w) → q ≠ artifact p) →
        Tree.file_at q (cwd w') = Tree.file_at q (cwd w))
  ∧ ∃ evs, (opens w' = opens w ++ evs) ∧ Forall (source_event (cwd w)) evs.
Proof.
  apply (run_invariant os (λ w',
    (∀ q, (∀ p, p ∈ files_of (cwd w) → eligible p (cwd w) → q ≠ artifact p) →
          Tree.file_at q (cwd w') = Tree.file_at q (cwd w))
    ∧ ∃ evs, (opens w' = opens w ++ evs) ∧ Forall (source_event (cwd w)) evs)).
  - intros l w' H. exact H.
  - intros x s w1 Hx [Hfr (evs & Ho & Hev)].
    destruct (body_effect os x s w1 _ (loop_body_outcome os x s w1))
      as [->|(Hel & _ & [Hf _ Hop _])]; [by eauto|].
    assert (eligible x (cwd w)) as Hel0.
    { destruct Hel as [Hfx Hs]. split; [|done]. rewrite <-Hfr; [done|].
      intros p _ _ E. by apply (PathFacts.artifact_not_source p x). }
    split.
    + intros q Hq. rewrite Hf by (by apply Hq). by apply Hfr.
    + destruct Hop as [->| ->]; rewrite Ho, <-app_assoc;
        eexists; (split; [done|]); apply Forall_app; (split; [done|]);
        repeat constructor; exists x; eauto.
  - split; [done|]. exists []. by rewrite app_nil_r.
Qed.

Lemma files_of_below n p : p ∈ files_of n → below data_dir p.
Proof.
  unfold files_of. destruct (Tree.lookup data_dir n); [|by intros ?%elem_of_nil].
  apply WalkFacts.walk_below.
Qed.

Lemma files_of_complete n p f :
  below data_dir p → Tree.file_at p n = Some f → p ∈ files_of n.
Proof.
  intros (q & Hq & ->) Hf%file_at_lookup. unfold files_of.
  rewrite TreeFacts.lookup_app in Hf.
  destruct (Tree.lookup data_dir n) as [d|]; [|done].
  by eapply TreeFacts.walk_complete.
Qed.

Lemma well_formed_lookup p n x :
  well_formed n = true → Tree.lookup p n = Some x → well_formed x = true.
Proof.
  revert n; induction p as [|c p IH]; intros n Hwf H; [by injection H as <-|].
  destruct n as [f|m es]; [done|]. cbn [Tree.lookup] in H.
  destruct (Tree.get c es) as [y|] eqn:E; [|done].
  apply TreeFacts.get_elem_of in E.
  apply WalkFacts.well_formed_dir in Hwf as [_ Hwf].
  rewrite Forall_forall in Hwf. by apply (IH y); [apply (Hwf _ E)|].
Qed.

Lemma files_of_order n p x l1 l2 :
  well_formed n = true →
  files_of n = l1 ++ x :: l2 → p ∈ files_of n →
  Path.parent x = artifact p → p ∈ l1.
Proof.
  unfold files_of. intros Hwf.
  destruct (Tree.lookup data_dir n) as [d|] eqn:E; [|by destruct l1].
  apply WalkFacts.walk_order. by apply (well_formed_lookup data_dir n).
Qed.

End Frame.

(** ** When the run returns, and what it can raise *)

Section Returns.

Variable os : platform.

Lemma store_raises p f t n e :
  Tree.store p f t n = Raise e →
  e = IsADirectoryError ∨ e = NotADirectoryError ∨ e = FileNotFoundError.
Proof.
  revert n; induction p as [|c p IH]; intros [g|m es] H; cbn in H;
    try (injection H as <-; by eauto).
  destruct p as [|c' p].
  - destruct (Tree.get c es) as [[?|? ?]|]; try done.
    injection H as <-; by eauto.
  - destruct (Tree.get c es) as [x|]; [|injection H as <-; by eauto].
    destruct (Tree.store (c' :: p) f t x) eqn:E; [done|].
    injection H as <-. by eapply IH.
Qed.

(** The exceptions of a turn are those of the file system. *)
Lemma turn_raises p s w w' e :
  loop_body os p s w = (w', Raise e) →
  (∃ errno, e = OSError errno)
  ∨ e = IsADirectoryError ∨ e = NotADirectoryError ∨ e = FileNotFoundError.
Proof.
  intros H. pose proof (loop_body_outcome os p s w) as Ho. rewrite H in Ho.
  inversion Ho; subst; eauto.
  right. by eapply store_raises.
Qed.

Lemma run_raises w w' e :
  gzip_web_files os w = (w', Raise e) →
  ∃ before p after locals w1,
    files_of (cwd w) = before ++ p :: after
    ∧ for_each before (loop_body os) (0, 0) w = (w1, Ok locals)
    ∧ loop_body os p locals w1 = (w', Raise e).
Proof.
  rewrite gzip_web_files_loop. destruct (Tree.lookup data_dir (cwd w)); [|done].
  destruct (for_each _ _ _ w) as [w1 [locals|e']] eqn:E; [done|].
  intros [= -> ->]. apply for_each_raise in E
    as (l1 & x & l2 & s1 & w0 & ? & ? & ?). by exists l1, x, l2, s1, w0.
Qed.

(** A turn whose exception reaches the loop ends the run with it. *)
Lemma run_propagates w before p after locals w1 w' e :
  files_of (cwd w) = before ++ p :: after →
  for_each before (loop_body os) (0, 0) w = (w1, Ok locals) →
  loop_body os p locals w1 = (w', Raise e) →
  gzip_web_files os w = (w', Raise e).
Proof.
  intros Hfiles Hbefore Hturn. rewrite gzip_web_files_loop.
  destruct (Tree.lookup data_dir (cwd w)) eqn:E.
  2:{ unfold files_of in Hfiles. rewrite E in Hfiles. by destruct before. }
  assert (for_each (files_of (cwd w)) (loop_body os) (0, 0) w = (w', Raise e))
    as ->; [|done].
  apply for_each_raise. by exists before, p, after, locals, w1.
Qed.

(** A directory stays a directory, and nothing becomes one. *)
Lemma store_keeps_dirs p q f t n n' m es :
  Tree.store p f t n = Ok n' →
  Tree.lookup q n' = Some (Dir m es) →
  ∃ m' es', Tree.lookup q n = Some (Dir m' es').
Proof.
  intros [Hp H]%TreeFacts.store_spec Hq.
  destruct (decide (q = p)) as [->|Hne]; [congruence|].
  specialize (H q Hne). destruct (Tree.lookup q n) as [[g|m' es']|];
    [congruence|eauto|congruence].
Qed.

Lemma turn_keeps_dirs x s w q m es :
  Tree.lookup q (cwd (loop_body os x s w).1) = Some (Dir m es) →
  ∃ m' es', Tree.lookup q (cwd w) = Some (Dir m' es').
Proof.
  pose proof (loop_body_outcome os x s w) as Ho.
  destruct (loop_body os x s w) as [w' r]. cbn [fst].
  inversion Ho; subst; cbn [cwd with_open with_cwd tick with_line]; eauto.
  - intros H. eapply store_keeps_dirs in H as (? & ? & H); [|done].
    by eapply store_keeps_dirs in H.
  - intros H. eapply store_keeps_dirs in H as (? & ? & H); [|done].
    by eapply store_keeps_dirs in H.
Qed.

(** Without faults and without a directory where an artifact goes, a
    turn returns and the next turn is in the same situation. *)
Lemma turn_returns x s w :
  no_faults os → no_directory_in_the_way (cwd w) →
  ∃ w' s', loop_body os x s w = (w', Ok s')
           ∧ no_directory_in_the_way (cwd w').
Proof.
  intros [Hopen Hcopy] Hdir.
  assert (no_directory_in_the_way (cwd (loop_body os x s w).1)) as Hdir'.
  { intros p m es [Hf Hs] Hd.
    apply turn_keeps_dirs in Hd as (m' & es' & Hd).
    apply (Hdir p m' es'); [|done]. split; [|done].
    destruct (body_effect os x s w _ (loop_body_outcome os x s w))
      as [E|(_ & _ & [Hfr _ _ _])]; [by rewrite E in Hf|].
    rewrite <-Hfr; [done|]. intros E.
    by apply (PathFacts.artifact_not_source x p). }
  pose proof (loop_body_outcome os x s w) as Ho.
  destruct (loop_body os x s w) as [w' [s'|e]]; [by eauto|].
  exfalso. inversion Ho; subst;
    try match goal with H : open_fault _ _ _ _ = Some _ |- _ =>
      by rewrite Hopen in H end;
    try match goal with H : copy_fault _ _ _ _ = Some _ |- _ =>
      by rewrite Hcopy in H end.
  match goal with
  | He : eligible _ _, Hst : Tree.store _ ?f ?t _ = Raise _ |- _ =>
      pose proof He as [[g Hg] _];
      destruct (TreeFacts.store_sibling (artifact x) (Path.name x) g f t (cwd w))
        as [n' Hn'];
      [ rewrite PathFacts.parent_artifact, <-PathFacts.split_last;
          [done | by eapply source_nonempty]
      | intros m es; by apply Hdir
      | apply PathFacts.artifact_nonempty
      | congruence ]
  end.
Qed.

Lemma loop_returns xs s w :
  no_faults os → no_directory_in_the_way (cwd w) →
  ∃ w' s', for_each xs (loop_body os) s w = (w', Ok s').
Proof.
  intros Hf. revert s w; induction xs as [|x xs IH]; intros s w Hd.
  { by exists w, s. }
  rewrite for_each_cons.
  destruct (turn_returns x s w Hf Hd) as (w1 & s1 & -> & Hd1). by apply IH.
Qed.

Lemma run_returns w :
  no_faults os → no_directory_in_the_way (cwd w) →
  ∃ w', gzip_web_files os w = (w', Ok tt).
Proof.
  intros Hf Hd. rewrite gzip_web_files_loop.
  destruct (Tree.lookup data_dir (cwd w)); [|by eauto].
  destruct (loop_returns (files_of (cwd w)) (0, 0) w Hf Hd) as (w' & s' & ->).
  by eauto.
Qed.

Lemma run_never_divides_by_zero w w' :
  gzip_web_files os w ≠ (w', Raise ZeroDivisionError).
Proof.
  intros (? & p & ? & s & w1 & _ & _ & H)%run_raises.
  apply turn_raises in H as [[? ?]|[?|[?|?]]]; done.
Qed.

End Returns.

(** ** What a run prints, file by file *)

Section Reports.

Variable os : platform.

Lemma stale_false n p :
  stale n p = false ↔ ¬ eligible p n ∨ newer p n = true.
Proof.
  unfold stale. rewrite andb_false_iff, bool_decide_eq_false, negb_false_iff.
  tauto.
Qed.

Lemma stale_true n p :
  stale n p = true ↔ eligible p n ∧ newer p n = false.
Proof.
  unfold stale. rewrite andb_true_iff, bool_decide_eq_true, negb_true_iff.
  tauto.
Qed.

Lemma turn_not_stale p s w :
  stale (cwd w) p = false → loop_body os p s w = (w, Ok s).
Proof.
  intros [H|H]%stale_false; [by apply loop_body_ineligible|].
  destruct (decide (eligible p (cwd w))).
  - by apply loop_body_newer.
  - by apply loop_body_ineligible.
Qed.

(** A turn for a stale source that returns: what it has written, opened,
    printed and counted. *)
Lemma turn_stale p s w w' s' :
  stale (cwd w) p = true → loop_body os p s w = (w', Ok s') →
  ∃ l, report_of (cwd w) (cwd w') p l
       ∧ stdout w' = stdout w ++ [l]
       ∧ opens w' = opens w ++ opens_of p
       ∧ s' = (s.1 + 1, s.2 + saved_of l).
Proof.
  intros [[[f Hf] Hs] Hn]%stale_true Hturn.
  destruct (turn_regenerates os p s w w' s' f Hturn Hf Hs Hn)
    as (Hg & _ & Ho & Hl & ->).
  eexists. split; [|split; [exact Hl|split; [exact Ho|done]]].
  eexists f, _. split; [done|]. split; [exact Hg|done].
Qed.

Lemma report_file_line n n' p l : report_of n n' p l → file_line l.
Proof. intros (f & gz & _ & _ & ->). cbn. split; [lia|]. split; [lia|done]. Qed.

Lemma report_of_agree n1 n1' n2 n2' p l :
  Tree.file_at p n2 = Tree.file_at p n1 →
  Tree.file_at (artifact p) n2' = Tree.file_at (artifact p) n1' →
  report_of n1 n1' p l → report_of n2 n2' p l.
Proof.
  intros H H' (f & gz & Hf & Hg & ->). exists f, gz.
  by rewrite H, H'.
Qed.

(** The loop counts what it prints. *)
Lemma loop_counts xs s w w' s' :
  for_each xs (loop_body os) s w = (w', Ok s') →
  ∃ ls, stdout w' = stdout w ++ ls ∧ Forall file_line ls
        ∧ s'.1 = s.1 + Z.of_nat (List.length ls)
        ∧ s'.2 = s.2 + total_saved_of ls.
Proof.
  revert s w; induction xs as [|x xs IH]; intros s w H.
  { injection H as <- <-. exists []. rewrite app_nil_r. cbn.
    repeat split; [constructor|lia..]. }
  rewrite for_each_cons in H.
  destruct (loop_body os x s w) as [w1 [s1|e]] eqn:Hturn; [|done].
  destruct (IH _ _ H) as (ls & Hls & Hall & Hc & Ht).
  destruct (stale (cwd w) x) eqn:Hx.
  - destruct (turn_stale x s w w1 s1 Hx Hturn)
      as (l & Hl%report_file_line & Hout & _ & ->).
    exists (l :: ls). rewrite Hls, Hout, <-app_assoc. cbn [fst snd] in *.
    split; [done|]. split; [by constructor|].
    cbn [List.length total_saved_of foldr]. fold (total_saved_of ls). lia.
  - rewrite turn_not_stale in Hturn by done. injection Hturn as <- <-.
    by exists ls.
Qed.

(** A turn that raises prints nothing. *)
Lemma turn_raise_silent p s w w' e :
  loop_body os p s w = (w', Raise e) → stdout w' = stdout w.
Proof.
  intros H. pose proof (loop_body_outcome os p s w) as Ho. rewrite H in Ho.
  inversion Ho; subst; done.
Qed.

(** A turn that raises is the turn of a stale source, which it has opened,
    and possibly its artifact after it. *)
Lemma turn_raise_opens p s w w' e :
  loop_body os p s w = (w', Raise e) →
  stale (cwd w) p = true
  ∧ ∃ evs, opens w' = opens w ++ evs ∧ (evs = [(rb, p)] ∨ evs = opens_of p).
Proof.
  intros H. split.
  { destruct (stale (cwd w) p) eqn:E; [done|].
    by rewrite turn_not_stale in H. }
  pose proof (loop_body_outcome os p s w) as Ho. rewrite H in Ho.
  inversion Ho; subst;
    repeat match goal with x := _ |- _ => subst x end;
    cbn [opens with_open with_cwd tick with_line].
  - exists [(rb, p)]. by split; [|left].
  - exists (opens_of p). by split; [rewrite <-app_assoc|right].
  - exists (opens_of p). by split; [rewrite <-app_assoc|right].
  - exists (opens_of p). by split; [rewrite <-app_assoc|right].
Qed.

Lemma loop_nothing_to_do xs s w :
  (∀ x, x ∈ xs → stale (cwd w) x = false) →
  for_each xs (loop_body os) s w = (w, Ok s).
Proof.
  induction xs as [|x xs IH]; intros H; [done|].
  rewrite for_each_cons, turn_not_stale by (apply H; left).
  apply IH. intros y Hy. apply H. by right.
Qed.

End Reports.

(** ** The turns of a run, file by file *)

Section Trace.

Variable os : platform.

Lemma walk_flat_nodup d (es : list (string * node)) :
  NoDup es.*1 →
  Forall (λ e, NoDup (Tree.walk (Path.child d e.1) e.2)) es →
  NoDup (flat_map (λ e, Tree.walk (Path.child d e.1) e.2) es).
Proof.
  induction es as [|[c y] es IH]; intros Hnd Hall; [constructor|].
  cbn in Hnd. apply NoDup_cons in Hnd as [Hc Hnd].
  apply Forall_cons in Hall as [Hy Hall].
  cbn [flat_map]. apply NoDup_app. split; [done|]. split; [|by apply IH].
  intros x Hx Hx'. cbn [fst snd] in Hx.
  apply WalkFacts.walk_below in Hx as (q & Hq & ->).
  apply list_elem_of_In, in_flat_map in Hx' as ([c' y'] & Hin & Hx').
  apply list_elem_of_In in Hin, Hx'.
  apply WalkFacts.walk_below in Hx' as (q' & Hq' & E).
  unfold Path.child in E. cbn [fst] in E. rewrite <-!app_assoc in E.
  apply app_inv_head in E. injection E as -> _.
  apply Hc, list_elem_of_fmap. by exists (c', y').
Qed.

(** In a well-formed tree [rglob] yields no path twice. *)
Lemma walk_nodup d n : well_formed n = true → NoDup (Tree.walk d n).
Proof.
  revert d; induction n as [f|m es IH] using WalkFacts.node_induction;
    intros d Hwf; [constructor|].
  apply WalkFacts.well_formed_dir in Hwf as [Hnd Hwf].
  rewrite WalkFacts.walk_dir. apply NoDup_app. split; [|split].
  - assert (map (λ e : string * node, Path.child d e.1) es
            = Path.child d <$> es.*1) as ->
      by (by rewrite <-list_fmap_compose).
    apply NoDup_fmap_2; [|done].
    intros a b E. by apply app_inj_tail in E as [_ ?].
  - intros x ([c y] & -> & _)%list_elem_of_fmap Hx.
    apply list_elem_of_In, in_flat_map in Hx as ([c' y'] & _ & Hx).
    apply list_elem_of_In, WalkFacts.walk_below, WalkFacts.length_below in Hx.
    unfold Path.child in Hx. rewrite !length_app in Hx. cbn in Hx. lia.
  - apply walk_flat_nodup; [done|].
    rewrite Forall_forall in IH, Hwf |- *. intros e He.
    by apply IH, Hwf.
Qed.

Lemma files_of_nodup n : well_formed n = true → NoDup (files_of n).
Proof.
  intros Hwf. unfold files_of.
  destruct (Tree.lookup data_dir n) as [d|] eqn:E; [|constructor].
  apply walk_nodup. by eapply well_formed_lookup.
Qed.

(** Whether a path is stale depends on the file at the path and on what
    [stat] reports at the path of its artifact. *)
Lemma stale_agree n n' p :
  (Path.suffix p ∈ extensions →
   Tree.file_at p n' = Tree.file_at p n
   ∧ node_stat <$> Tree.lookup (artifact p) n'
     = node_stat <$> Tree.lookup (artifact p) n) →
  stale n' p = stale n p.
Proof.
  intros H. unfold stale.
  destruct (decide (Path.suffix p ∈ extensions)) as [Hs|Hs].
  2:{ rewrite !bool_decide_eq_false_2; [done|by intros [_ ?]..]. }
  destruct (H Hs) as [Hf Hst].
  destruct (Tree.file_at p n) as [f|] eqn:E.
  - rewrite (newer_stat p f n n') by done.
    rewrite !bool_decide_eq_true_2; [done|split; [by eexists|done]..].
  - rewrite !bool_decide_eq_false_2; [done|..];
      intros [[f Hf'] _]; congruence.
Qed.

(** The loop over some of the paths that follow [done] in the listing, in
    a world that is as at the start of the run for them and for the paths
    after them. *)
Lemma loop_trace w done todo rest w1 s1 w' s' :
  well_formed (cwd w) = true →
  files_of (cwd w) = done ++ todo ++ rest →
  (∀ p, p ∈ todo ++ rest → Path.suffix p ∈ extensions →
     Tree.file_at p (cwd w1) = Tree.file_at p (cwd w)
     ∧ node_stat <$> Tree.lookup (artifact p) (cwd w1)
       = node_stat <$> Tree.lookup (artifact p) (cwd w)) →
  for_each todo (loop_body os) s1 w1 = (w', Ok s') →
  let compressed := List.filter (stale (cwd w)) todo in
  opens w' = opens w1 ++ flat_map opens_of compressed
  ∧ (∃ ls, stdout w' = stdout w1 ++ ls
           ∧ Forall2 (report_of (cwd w) (cwd w')) compressed ls)
  ∧ (∀ p, p ∈ rest → Path.suffix p ∈ extensions →
       Tree.file_at p (cwd w') = Tree.file_at p (cwd w)
       ∧ node_stat <$> Tree.lookup (artifact p) (cwd w')
         = node_stat <$> Tree.lookup (artifact p) (cwd w)).
Proof.
  intros Hwf. revert done w1 s1.
  induction todo as [|x todo IH]; intros done w1 s1 Hfiles Hagree Hloop.
  { injection Hloop as <- _. cbn. rewrite app_nil_r. split; [done|].
    split; [|done]. exists []. rewrite app_nil_r. split; [done|constructor]. }
  rewrite for_each_cons in Hloop.
  assert (stale (cwd w1) x = stale (cwd w) x) as Hx.
  { apply stale_agree. apply Hagree. left. }
  pose proof (files_of_nodup _ Hwf) as Hnd. rewrite Hfiles in Hnd.
  apply NoDup_app in Hnd as (_ & Hdone & [Hxt _]%NoDup_cons).
  cbn [List.filter]. destruct (stale (cwd w) x) eqn:Hsx.
  - destruct (loop_body os x s1 w1) as [w2 [s2|e]] eqn:Hturn; [|done].
    destruct (turn_stale os x s1 w1 w2 s2 Hx Hturn)
      as (l & Hl & Hout & Ho & _).
    apply stale_true in Hx as [Hel _].
    assert (Tree.file_at (artifact x) (cwd w')
            = Tree.file_at (artifact x) (cwd w2)) as Hkept.
    { replace w' with (for_each todo (loop_body os) s2 w2).1
        by (by rewrite Hloop).
      apply (for_each_invariant (λ w3,
        Tree.file_at (artifact x) (cwd w3)
        = Tree.file_at (artifact x) (cwd w2))); [|done].
      intros y s3 w3 Hy <-.
      apply (other_turn_frame os x y s3 w3); [by destruct Hel|].
      intros ->. apply Hxt, elem_of_app. by left. }
    destruct (body_effect os x s1 w1 _ (loop_body_outcome os x s1 w1))
      as [E|(_ & _ & [Hfr Hsr _ _])].
    { rewrite Hturn in E. injection E as -> _.
      apply (f_equal List.length) in Ho. rewrite length_app in Ho.
      cbn in Ho. lia. }
    rewrite Hturn in Hfr, Hsr. cbn [fst] in Hfr, Hsr.
    destruct (IH (done ++ [x]) w2 s2) as (Ho' & (ls & Hls & Hnames) & Hrest);
      [by rewrite <-app_assoc| |done|].
    + intros p Hp Hs. destruct (Hagree p (list_elem_of_further _ _ _ Hp) Hs)
        as [<- <-].
      assert (p ≠ x) as Hne by (by intros ->).
      split.
      * apply Hfr. intros E. by apply (PathFacts.artifact_not_source x p).
      * apply Hsr; [apply artifact_apart; [done|by destruct Hel|done]|].
        intros E. apply (Hdone p); [|by right].
        apply (files_of_order (cwd w) p x done (todo ++ rest)); [done..| |done].
        rewrite Hfiles. apply elem_of_app. right. by right.
    + cbv zeta. cbn [flat_map]. rewrite Ho', Ho, <-app_assoc.
      split; [done|]. split; [|done].
      exists (l :: ls). rewrite Hls, Hout, <-app_assoc.
      split; [done|]. constructor; [|done].
      apply (report_of_agree (cwd w1) (cwd w2)); [|done..].
      symmetry. apply Hagree; [left|by destruct Hel].
  - rewrite turn_not_stale in Hloop by done.
    apply (IH (done ++ [x]) w1 s1); [by rewrite <-app_assoc| |done].
    intros p Hp. apply Hagree. by right.
Qed.

Lemma Forall2_elem_l {A B} (P : A → B → Prop) l k x :
  Forall2 P l k → x ∈ l → ∃ y, y ∈ k ∧ P x y.
Proof.
  induction 1 as [|a b l k Hab _ IH]; [by intros ?%elem_of_nil|].
  intros [->|Hx]%elem_of_cons.
  - exists b. split; [left|done].
  - destruct (IH Hx) as (y & Hy & Hxy). exists y. split; [by right|done].
Qed.

Lemma Forall2_impl_elem {A B} (P Q : A → B → Prop) l k :
  Forall2 P l k → (∀ x y, x ∈ l → P x y → Q x y) → Forall2 Q l k.
Proof.
  induction 1 as [|a b l k Hab _ IH]; intros H; constructor.
  - apply H; [left|done].
  - apply IH. intros x y Hx. apply H. by right.
Qed.

(** A run that returns has printed the line of every source that was stale
    when it started. *)
Lemma run_reports w w' p :
  well_formed (cwd w) = true →
  gzip_web_files os w = (w', Ok tt) →
  p ∈ files_of (cwd w) → stale (cwd w) p = true →
  ∃ ls l, stdout w' = stdout w ++ ls ∧ l ∈ ls
          ∧ report_of (cwd w) (cwd w') p l.
Proof.
  intros Hwf Hrun Hin Hp.
  apply run_ok in Hrun as [[Hnone _]|(locals & w1 & Hloop & ->)].
  { unfold files_of in Hin. rewrite Hnone in Hin. by apply elem_of_nil in Hin. }
  destruct (loop_trace w [] (files_of (cwd w)) [] w (0, 0) w1 locals)
    as (_ & (ls & Hls & Hrep) & _); [done|by rewrite app_nil_r|done..|].
  assert (p ∈ List.filter (stale (cwd w)) (files_of (cwd w))) as Hc.
  { apply list_elem_of_In, filter_In. by split; [apply list_elem_of_In|]. }
  destruct (Forall2_elem_l _ _ _ _ Hrep Hc) as (l & Hl & Hr).
  exists (ls ++ [closing_line locals]), l. cbn [stdout with_line cwd].
  rewrite Hls, <-app_assoc. split; [done|].
  split; [apply elem_of_app; by left|done].
Qed.

(** A run that raises has compressed, and printed the lines of, the sources
    that were stale among the paths before the one it fails at; that one was
    stale too, and the run has opened it, and possibly its artifact. *)
Lemma run_raise_trace w w' e :
  well_formed (cwd w) = true →
  gzip_web_files os w = (w', Raise e) →
  ∃ before p after ls evs,
    files_of (cwd w) = before ++ p :: after
    ∧ stale (cwd w) p = true
    ∧ stdout w' = stdout w ++ ls
    ∧ Forall2 (report_of (cwd w) (cwd w'))
        (List.filter (stale (cwd w)) before) ls
    ∧ opens w'
      = opens w ++ flat_map opens_of (List.filter (stale (cwd w)) before)
        ++ evs
    ∧ (evs = [(rb, p)] ∨ evs = opens_of p).
Proof.
  intros Hwf (before & p & after & locals & w1 & Hfiles & Hloop & Hturn)%run_raises.
  destruct (loop_trace w [] before (p :: after) w (0, 0) w1 locals)
    as (Ho & (ls & Hls & Hrep) & Hrest); [done..|].
  destruct (turn_raise_opens os _ _ _ _ _ Hturn) as (Hp & evs & Hevs & Hcases).
  pose proof (files_of_nodup _ Hwf) as Hnd. rewrite Hfiles in Hnd.
  apply NoDup_app in Hnd as (_ & Hbefore & _).
  exists before, p, after, ls, evs. split; [done|]. split; [|split; [|split]].
  - rewrite <-Hp. symmetry. apply stale_agree. apply Hrest. left.
  - by rewrite (turn_raise_silent os _ _ _ _ _ Hturn).
  - apply (Forall2_impl_elem _ _ _ _ Hrep). intros x l Hx.
    apply report_of_agree; [done|].
    apply list_elem_of_In, filter_In in Hx as [Hx%list_elem_of_In Hsx].
    apply stale_true in Hsx as [[_ Hs] _].
    replace w' with (loop_body os p locals w1).1 by (by rewrite Hturn).
    apply (other_turn_frame os x p locals w1 Hs).
    intros ->. apply (Hbefore x Hx). left.
  - split; [|done]. by rewrite Hevs, Ho, <-app_assoc.
Qed.

End Trace.

(** * The properties of the script *)



Lemma in_extensions (s : string) :
  bool_decide (s ∈ extensions) = true → s ∈ extensions.
Proof. apply bool_decide_eq_true. Qed.

(** C1. After a run that returns, every regular file below [data/] whose
    extension is in the allow-set and whose artifact is not newer has an
    artifact, at its path plus ['.gz'], that decompresses to the bytes of
    the file, with the file itself as it was.  Decompression is any
    function that inverts the platform's gzip. *)
Theorem round_trip os (gunzip : list byte → option (list byte)) w w' p f :
  (∀ level fname t data,
     gunzip (gzip_compress os level fname t data) = Some data) →
  well_formed (cwd w) = true →
  gzip_web_files os w = (w', Ok tt) →
  below data_dir p → Tree.file_at p (cwd w) = Some f →
  Path.suffix p ∈ extensions → newer p (cwd w) = false →
  ∃ gz, Tree.file_at (artifact p) (cwd w') = Some gz
        ∧ gunzip (content gz) = Some (content f)
        ∧ Tree.file_at p (cwd w') = Some f.
Proof.
  intros Hgz Hwf Hrun Hb Hf Hs Hn.
  assert (p ∈ files_of (cwd w)) as Hin by (by eapply files_of_complete).
  destruct (run_regenerates os p f w w' Hrun Hin Hf Hs Hn)
    as ((t & m & Hg) & Hp & _).
  { intros l1 x l2 _ _ Hfiles Hpar _. by eapply files_of_order. }
  eexists. split; [exact Hg|]. split; [apply Hgz | done].
Qed.

Lemma round_trip_witness :
  ∃ gz, Tree.file_at (artifact ["data"; "a.html"])
          (cwd (gzip_web_files Sample.os Sample.w).1) = Some gz
        ∧ Sample.gunzip (content gz) = Some [x61; x62]
        ∧ Tree.file_at ["data"; "a.html"]
            (cwd (gzip_web_files Sample.os Sample.w).1)
          = Some {| content := [x61; x62]; mtime := 10 |}.
Proof.
  apply (round_trip Sample.os Sample.gunzip Sample.w _ ["data"; "a.html"]
           {| content := [x61; x62]; mtime := 10 |}).
  - intros. reflexivity.
  - vm_compute. reflexivity.
  - vm_compute. reflexivity.
  - exists ["a.html"]. split; [discriminate | reflexivity].
  - vm_compute. reflexivity.
  - apply in_extensions. vm_compute. reflexivity.
  - vm_compute. reflexivity.
Defined.

(** C2. A source whose artifact exists with a modification time strictly
    after its own is skipped: however many times the script runs, and
    however the runs end, the artifact keeps its bytes and its modification
    time, the source is not opened and the artifact is not opened. *)
Theorem skip_when_newer os w p f gz (n : nat) :
  Tree.file_at p (cwd w) = Some f → Path.suffix p ∈ extensions →
  Tree.file_at (artifact p) (cwd w) = Some gz → mtime gz > mtime f →
  let w' := rerun os n w in
  Tree.file_at (artifact p) (cwd w') = Some gz
  ∧ Tree.file_at p (cwd w') = Some f
  ∧ ∃ evs, (opens w' = opens w ++ evs)
           ∧ ((rb, p) ∉ evs) ∧ ((wb, artifact p) ∉ evs).
Proof.
  intros Hf Hs Hg Hm. induction n as [|n (Hg' & Hf' & evs & Ho & Hr & Hw)].
  { cbn. repeat (split; [done|]). exists []. rewrite app_nil_r.
    repeat split; apply not_elem_of_nil. }
  cbn [rerun]. cbv zeta.
  destruct (kept_when_newer os p f gz _ Hf' Hs Hg' Hm)
    as (Hf'' & Hg'' & evs' & Ho' & Hr' & Hw').
  repeat (split; [done|]). exists (evs ++ evs').
  rewrite Ho', Ho, <-app_assoc. split; [done|].
  split; rewrite elem_of_app; tauto.
Qed.

Lemma skip_when_newer_witness :
  Tree.file_at (artifact ["data"; "sub"; "c.js"])
    (cwd (rerun Sample.os 2 Sample.w))
  = Some {| content := [x09]; mtime := 8 |}.
Proof.
  apply (skip_when_newer Sample.os Sample.w ["data"; "sub"; "c.js"]
           {| content := [x63]; mtime := 7 |}
           {| content := [x09]; mtime := 8 |} 2).
  - vm_compute. reflexivity.
  - apply in_extensions. vm_compute. reflexivity.
  - vm_compute. reflexivity.
  - vm_compute. reflexivity.
Defined.

Section Regenerate.

Variable os : platform.

(** The common ground of C3 and C10: the artifact is a regular file that
    is not newer than the source. *)
Lemma regenerated_when_not_newer w w' p f gz :
  gzip_web_files os w = (w', Ok tt) →
  below data_dir p → Tree.file_at p (cwd w) = Some f →
  Path.suffix p ∈ extensions →
  Tree.file_at (artifact p) (cwd w) = Some gz → mtime gz <= mtime f →
  (∃ t m,
     Tree.file_at (artifact p) (cwd w')
     = Some {| content := gzip_compress os 9 (Path.name p) t (content f);
               mtime := m |})
  ∧ ∃ evs, (opens w' = opens w ++ evs) ∧ ((wb, artifact p) ∈ evs).
Proof.
  intros Hrun Hb Hf Hs Hg Hm.
  assert (p ∈ files_of (cwd w)) as Hin by (by eapply files_of_complete).
  assert (newer p (cwd w) = false) as Hn.
  { rewrite (newer_files p _ f gz) by done. rewrite Z.gtb_ltb.
    apply Z.ltb_ge. lia. }
  destruct (run_regenerates os p f w w' Hrun Hin Hf Hs Hn)
    as (Hgz & _ & (evs & Ho & _ & Hw) & _).
  { intros l1 x l2 m es _ _ Hd. apply file_at_lookup in Hg. congruence. }
  split; [done|]. by exists evs.
Qed.

End Regenerate.

(** C3. After a run that returns, a source below [data/] that was modified
    after its artifact has a regenerated artifact: the artifact was opened
    for writing during the run, and it holds a gzip stream, made at
    level 9, of the bytes that the source has. *)
Theorem regenerate_when_source_newer os w w' p f gz :
  gzip_web_files os w = (w', Ok tt) →
  below data_dir p → Tree.file_at p (cwd w) = Some f →
  Path.suffix p ∈ extensions →
  Tree.file_at (artifact p) (cwd w) = Some gz → mtime f > mtime gz →
  (∃ t m,
     Tree.file_at (artifact p) (cwd w')
     = Some {| content := gzip_compress os 9 (Path.name p) t (content f);
               mtime := m |})
  ∧ ∃ evs, (opens w' = opens w ++ evs) ∧ ((wb, artifact p) ∈ evs).
Proof.
  intros Hrun Hb Hf Hs Hg Hm.
  apply (regenerated_when_not_newer os w w' p f gz); [done..|lia].
Qed.

Lemma regenerate_when_source_newer_witness :
  (∃ t m,
     Tree.file_at (artifact ["data"; "a.html"])
       (cwd (gzip_web_files Sample.os Sample.w).1)
     = Some {| content := gzip_compress Sample.os 9 "a.html" t [x61; x62];
               mtime := m |})
  ∧ ∃ evs, (opens (gzip_web_files Sample.os Sample.w).1
            = opens Sample.w ++ evs)
           ∧ ((wb, artifact ["data"; "a.html"]) ∈ evs).
Proof.
  apply (regenerate_when_source_newer Sample.os Sample.w _ ["data"; "a.html"]
           {| content := [x61; x62]; mtime := 10 |}
           {| content := [x00]; mtime := 5 |}).
  - vm_compute. reflexivity.
  - exists ["a.html"]. split; [discriminate | reflexivity].
  - vm_compute. reflexivity.
  - apply in_extensions. vm_compute. reflexivity.
  - vm_compute. reflexivity.
  - vm_compute. reflexivity.
Defined.

(** C10. The comparison is strict: after a run that returns, a source below
    [data/] whose artifact has exactly the modification time of the source
    has been compressed again, as in C3. *)
Theorem regenerate_when_times_equal os w w' p f gz :
  gzip_web_files os w = (w', Ok tt) →
  below data_dir p → Tree.file_at p (cwd w) = Some f →
  Path.suffix p ∈ extensions →
  Tree.file_at (artifact p) (cwd w) = Some gz → mtime gz = mtime f →
  (∃ t m,
     Tree.file_at (artifact p) (cwd w')
     = Some {| content := gzip_compress os 9 (Path.name p) t (content f);
               mtime := m |})
  ∧ ∃ evs, (opens w' = opens w ++ evs)
           ∧ ((rb, p) ∈ evs) ∧ ((wb, artifact p) ∈ evs).
Proof.
  intros Hrun Hb Hf Hs Hg Hm.
  assert (p ∈ files_of (cwd w)) as Hin by (by eapply files_of_complete).
  assert (newer p (cwd w) = false) as Hn.
  { rewrite (newer_files p _ f gz), Hm by done.
    rewrite Z.gtb_ltb. apply Z.ltb_irrefl. }
  destruct (run_regenerates os p f w w' Hrun Hin Hf Hs Hn)
    as (Hgz & _ & Hev & _); [|done].
  intros l1 x l2 m es _ _ Hd. apply file_at_lookup in Hg. congruence.
Qed.

Lemma regenerate_when_times_equal_witness :
  (∃ t m,
     Tree.file_at (artifact ["data"; "app.js"])
       (cwd (gzip_web_files Sample.os Sample.same_time).1)
     = Some {| content := gzip_compress Sample.os 9 "app.js" t [x61];
               mtime := m |})
  ∧ ∃ evs, (opens (gzip_web_files Sample.os Sample.same_time).1
            = opens Sample.same_time ++ evs)
           ∧ ((rb, ["data"; "app.js"]) ∈ evs)
           ∧ ((wb, artifact ["data"; "app.js"]) ∈ evs).
Proof.
  apply (regenerate_when_times_equal Sample.os Sample.same_time _
           ["data"; "app.js"]
           {| content := [x61]; mtime := 7 |}
           {| content := [x00]; mtime := 7 |}).
  - vm_compute. reflexivity.
  - exists ["app.js"]. split; [discriminate | reflexivity].
  - vm_compute. reflexivity.
  - apply in_extensions. vm_compute. reflexivity.
  - vm_compute. reflexivity.
  - vm_compute. reflexivity.
Defined.

(** C5. Without [data/] in the working directory the run returns without an
    exception; the world it leaves differs from the one it started in only
    by the warning on the output: no file is created, changed or opened. *)
Theorem missing_data_dir os w :
  Tree.lookup data_dir (cwd w) = None →
  gzip_web_files os w = (with_line data_not_found w, Ok tt).
Proof. apply gzip_web_files_missing. Qed.

Lemma missing_data_dir_witness :
  gzip_web_files Sample.os Sample.no_data
  = (with_line data_not_found Sample.no_data, Ok tt).
Proof. apply (missing_data_dir Sample.os Sample.no_data). reflexivity. Defined.



(** C9. However the run ends, the regular files that are sources are as they
    were; so is every regular file that is not at the artifact path of a
    source below [data/]; and every file that the run opened is such a
    source, opened for reading, or the artifact path of one, opened for
    writing. *)
Theorem only_artifacts_written os w :
  let w' := (gzip_web_files os w).1 in
  (∀ p, eligible p (cwd w) →
        Tree.file_at p (cwd w') = Tree.file_at p (cwd w))
  ∧ (∀ q, (∀ p, below data_dir p → eligible p (cwd w) → q ≠ artifact p) →
          Tree.file_at q (cwd w') = Tree.file_at q (cwd w))
  ∧ ∃ evs, (opens w' = opens w ++ evs)
           ∧ ∀ m q, (m, q) ∈ evs →
               ∃ p, below data_dir p ∧ eligible p (cwd w)
                    ∧ (m = rb ∧ q = p ∨ m = wb ∧ q = artifact p).
Proof.
  destruct (run_frame os w) as [Hfr (evs & Ho & Hev)]. cbv zeta.
  split; [|split].
  - intros p [_ Hs]. apply Hfr. intros p' _ _ E.
    by apply (PathFacts.artifact_not_source p' p).
  - intros q Hq. apply Hfr. intros p Hin. apply Hq.
    by eapply files_of_below.
  - exists evs. split; [done|]. intros m q Hin.
    rewrite Forall_forall in Hev.
    destruct (Hev _ Hin) as (p & Hp & Hel & [E|E]); exists p;
      (split; [by eapply files_of_below|]); (split; [done|]);
      injection E as -> ->; eauto.
Qed.




(** C6. For a zero-byte source below [data/] that is not newer than its
    artifact: the run never ends in a division by zero; when it returns,
    the artifact is a regular file that holds the level-9 gzip stream of
    the empty input, which every inverse of the platform's gzip turns back
    into zero bytes, and the line printed for the source reports the size
    0, the size of that stream and a percentage of 0; and the run does
    return when the platform makes no call fail and no directory is in the
    way of an artifact. *)
Theorem zero_byte_source os w p f :
  well_formed (cwd w) = true → below data_dir p →
  Tree.file_at p (cwd w) = Some f → content f = [] →
  Path.suffix p ∈ extensions → newer p (cwd w) = false →
  (∀ w', gzip_web_files os w ≠ (w', Raise ZeroDivisionError))
  ∧ (∀ w', gzip_web_files os w = (w', Ok tt) →
       ∃ t m,
         let stream := gzip_compress os 9 (Path.name p) t [] in
         Tree.file_at (artifact p) (cwd w')
         = Some {| content := stream; mtime := m |}
         ∧ (∀ gunzip : list byte → option (list byte),
              (∀ level fname t' data,
                 gunzip (gzip_compress os level fname t' data) = Some data) →
              gunzip stream = Some [])
         ∧ ∃ ls,
             (stdout w' = stdout w ++ ls)
             ∧ file_compressed (Path.name p) 0
                 (Z.of_nat (List.length stream)) 0%Q ∈ ls)
  ∧ (no_faults os → no_directory_in_the_way (cwd w) →
     ∃ w', gzip_web_files os w = (w', Ok tt)).
Proof.
  intros Hwf Hb Hf Hempty Hs Hn. split; [|split].
  - intros w'. apply run_never_divides_by_zero.
  - intros w' Hrun.
    assert (p ∈ files_of (cwd w)) as Hin by (by eapply files_of_complete).
    destruct (run_regenerates os p f w w' Hrun Hin Hf Hs Hn)
      as ((t & m & Hg) & _ & _ & _).
    { intros l1 x l2 _ _ Hfiles Hpar _. by eapply files_of_order. }
    destruct (run_reports os w w' p Hwf Hrun Hin)
      as (ls & l & Hls & Hl & f' & gz & Hf' & Hg' & ->).
    { apply stale_true. by split; [split; [eexists|]|]. }
    rewrite Hempty in Hg. rewrite Hg in Hg'. injection Hg' as <-.
    rewrite Hf in Hf'. injection Hf' as <-. rewrite Hempty in Hl.
    exists t, m. cbv zeta. split; [exact Hg|]. split; [by intros gunzip ->|].
    exists ls. split; [done|]. exact Hl.
  - apply run_returns.
Qed.

Lemma zero_byte_source_witness :
  ∃ t m,
    Tree.file_at ["data"; "b.css.gz"]
      (cwd (gzip_web_files Sample.os Sample.w).1)
    = Some {| content := gzip_compress Sample.os 9 "b.css" t []; mtime := m |}
    ∧ Sample.gunzip (gzip_compress Sample.os 9 "b.css" t []) = Some []
    ∧ ∃ ls,
        (stdout (gzip_web_files Sample.os Sample.w).1 = stdout Sample.w ++ ls)
        ∧ file_compressed "b.css" 0 2 0%Q ∈ ls.
Proof.
  destruct (zero_byte_source Sample.os Sample.w ["data"; "b.css"]
              {| content := []; mtime := 10 |}) as (_ & H & _).
  - vm_compute. reflexivity.
  - exists ["b.css"]. split; [discriminate | reflexivity].
  - vm_compute. reflexivity.
  - reflexivity.
  - apply in_extensions. vm_compute. reflexivity.
  - vm_compute. reflexivity.
  - destruct (H (gzip_web_files Sample.os Sample.w).1)
      as (t & m & Hg & Hz & ls & Hls & Hl).
    + vm_compute. reflexivity.
    + exists t, m. split; [exact Hg|]. split.
      * apply Hz. intros. reflexivity.
      * exists ls. split; [exact Hls | exact Hl].
Defined.

Section Faults.

Variable os : platform.

(** How a turn ends when a call of the platform or of the file system
    fails: with the exception of that call, in the world that the call
    left. *)
Lemma turn_faults p s w f :
  Tree.file_at p (cwd w) = Some f → Path.suffix p ∈ extensions →
  newer p (cwd w) = false →
  let w1 := with_open rb p w in
  let w2 := with_open wb (artifact p) w1 in
  let empty := {| content := []; mtime := now os w |} in
  (∀ errno,
     open_fault os rb p w1 = Some errno →
     loop_body os p s w = (w1, Raise (OSError errno)))
  ∧ (∀ errno,
       open_fault os rb p w1 = None →
       open_fault os wb (artifact p) w2 = Some errno →
       loop_body os p s w = (w2, Raise (OSError errno)))
  ∧ (∀ e,
       open_fault os rb p w1 = None →
       open_fault os wb (artifact p) w2 = None →
       Tree.store (artifact p) empty (now os w) (cwd w) = Raise e →
       loop_body os p s w = (w2, Raise e))
  ∧ (∀ errno remains n3,
       open_fault os rb p w1 = None →
       open_fault os wb (artifact p) w2 = None →
       Tree.store (artifact p) empty (now os w) (cwd w) = Ok n3 →
       let w3 := tick (tick (with_cwd n3 w2)) in
       copy_fault os p (artifact p) w3 = Some (errno, remains) →
       ∃ w', loop_body os p s w = (w', Raise (OSError errno))
             ∧ Tree.file_at (artifact p) (cwd w')
               = Some {| content := remains; mtime := now os w3 |}
             ∧ opens w' = opens w ++ [(rb, p); (wb, artifact p)]
             ∧ stdout w' = stdout w).
Proof.
  intros Hf Hs Hn. cbv zeta.
  assert (eligible p (cwd w)) as Hel by (by split; [eexists|]).
  pose proof (loop_body_outcome os p s w) as Ho.
  repeat split; intros;
    inversion Ho; subst;
    repeat match goal with x := _ |- _ => subst x end;
    try congruence; try done.
  match goal with
  | H3 : Tree.store _ _ _ (cwd w) = Ok ?n3,
    H3' : Tree.store _ _ _ (cwd w) = Ok ?n3' |- _ =>
      assert (n3' = n3) as -> by congruence
  end.
  match goal with
  | Hc : copy_fault _ _ _ _ = Some (?e, ?r),
    Hc' : copy_fault _ _ _ _ = Some (?e', ?r') |- _ =>
      assert (e' = e ∧ r' = r) as [-> ->] by (split; congruence)
  end.
  eexists. split; [done|]. cbn [cwd opens stdout tick with_cwd with_open].
  split; [by eapply TreeFacts.file_at_store_eq|].
  by rewrite <-app_assoc.
Qed.

End Faults.

(** C7. The script handles no exception.  When the loop has reached a
    source that is not newer than its artifact and a call fails there
    (opening the source, opening the artifact, creating the artifact, or
    the copy into it), the run ends with the exception of that call, in
    the world that the call left: the files after it are not visited,
    nothing is opened a second time, and what a failed copy left in the
    artifact stays there. *)
Theorem io_errors_propagate os w before p after locals w1 f :
  files_of (cwd w) = before ++ p :: after →
  for_each before (loop_body os) (0, 0) w = (w1, Ok locals) →
  Tree.file_at p (cwd w1) = Some f → Path.suffix p ∈ extensions →
  newer p (cwd w1) = false →
  let w2 := with_open rb p w1 in
  let w3 := with_open wb (artifact p) w2 in
  let empty := {| content := []; mtime := now os w1 |} in
  (∀ errno,
     open_fault os rb p w2 = Some errno →
     gzip_web_files os w = (w2, Raise (OSError errno)))
  ∧ (∀ errno,
       open_fault os rb p w2 = None →
       open_fault os wb (artifact p) w3 = Some errno →
       gzip_web_files os w = (w3, Raise (OSError errno)))
  ∧ (∀ e,
       open_fault os rb p w2 = None →
       open_fault os wb (artifact p) w3 = None →
       Tree.store (artifact p) empty (now os w1) (cwd w1) = Raise e →
       gzip_web_files os w = (w3, Raise e))
  ∧ (∀ errno remains n,
       open_fault os rb p w2 = None →
       open_fault os wb (artifact p) w3 = None →
       Tree.store (artifact p) empty (now os w1) (cwd w1) = Ok n →
       let w4 := tick (tick (with_cwd n w3)) in
       copy_fault os p (artifact p) w4 = Some (errno, remains) →
       ∃ w', gzip_web_files os w = (w', Raise (OSError errno))
             ∧ Tree.file_at (artifact p) (cwd w')
               = Some {| content := remains; mtime := now os w4 |}
             ∧ opens w' = opens w1 ++ [(rb, p); (wb, artifact p)]
             ∧ stdout w' = stdout w1).
Proof.
  intros Hfiles Hbefore Hf Hs Hn. cbv zeta.
  destruct (turn_faults os p locals w1 f Hf Hs Hn) as (H1 & H2 & H3 & H4).
  split; [|split; [|split]].
  - intros errno Hrb. eapply run_propagates; [done..|]. by apply H1.
  - intros errno Hrb Hwb. eapply run_propagates; [done..|]. by apply H2.
  - intros e Hrb Hwb Hst. eapply run_propagates; [done..|]. by apply H3.
  - intros errno remains n Hrb Hwb Hst Hcp.
    destruct (H4 errno remains n Hrb Hwb Hst Hcp) as (w' & Hturn & Hrest).
    exists w'. split; [|done]. by eapply run_propagates.
Qed.

Lemma io_errors_propagate_witness :
  ∃ w', gzip_web_files Sample.full_disk Sample.w = (w', Raise (OSError 28))
        ∧ Tree.file_at ["data"; "a.html.gz"] (cwd w')
          = Some {| content := [x1f]; mtime := 102 |}.
Proof.
  destruct (io_errors_propagate Sample.full_disk Sample.w []
              ["data"; "a.html"] (tail (files_of (cwd Sample.w))) (0, 0)
              Sample.w {| content := [x61; x62]; mtime := 10 |})
    as (_ & _ & _ & H).
  - vm_compute. reflexivity.
  - reflexivity.
  - vm_compute. reflexivity.
  - apply in_extensions. vm_compute. reflexivity.
  - vm_compute. reflexivity.
  - edestruct (H 28 [x1f]) as (w' & Hrun & Hgz & _).
    + reflexivity.
    + reflexivity.
    + vm_compute. reflexivity.
    + reflexivity.
    + exists w'. split; [exact Hrun | exact Hgz].
Defined.

(** * Further properties of the script *)

(** ** Which names are compressed *)

Lemma rfind_app_found c s t :
  0 <= Str.rfind c t → Str.rfind c (s +:+ t) = Str.len s + Str.rfind c t.
Proof.
  intros Ht. unfold Str.len.
  induction s as [|a s IH]; [rewrite StrFacts.app_empty; cbn; lia|].
  rewrite StrFacts.app_cons. cbn [Str.rfind String.length]. rewrite IH.
  destruct (0 <=? Z.of_nat (String.length s) + Str.rfind c t) eqn:E; lia.
Qed.

Lemma stem_nonempty name :
  Path.name_suffix name ≠ EmptyString →
  Str.slice_to name (- Str.len (Path.name_suffix name)) ≠ EmptyString.
Proof.
  intros Hs Hstem. pose proof (StrFacts.stem_suffix name Hs) as H.
  rewrite Hstem, StrFacts.app_empty in H.
  unfold Path.name_suffix in H, Hs.
  pose proof (StrFacts.rfind_lt "." name) as Hr.
  destruct (0 <? Str.rfind "." name) eqn:E1; [|done].
  destruct (Str.rfind "." name <? Str.len name - 1) eqn:E2; [|done].
  cbn [andb] in H. unfold Str.slice_from in H.
  rewrite StrFacts.bound_nonneg in H by lia.
  apply (f_equal String.length) in H. rewrite StrFacts.length_drop in H.
  unfold Str.len in *. lia.
Qed.

Lemma suffix_of_stem_ext stem ext :
  stem ≠ EmptyString → ext ∈ extensions →
  Path.name_suffix (stem +:+ ext) = ext.
Proof.
  intros Hstem Hext.
  assert (Str.rfind "." ext = 0 ∧ 3 <= Str.len ext) as [Hdot Hlen].
  { apply PathFacts.extensions_cases in Hext.
    destruct Hext as [-> | [-> | [-> | [-> | [-> | ->]]]]]; by vm_compute. }
  unfold Path.name_suffix. rewrite rfind_app_found by lia.
  rewrite Hdot, Z.add_0_r.
  assert (Str.len (stem +:+ ext) = Str.len stem + Str.len ext) as ->.
  { unfold Str.len. rewrite StrFacts.length_app. lia. }
  assert (0 < Str.len stem) as Hpos.
  { unfold Str.len. destruct stem; [done | cbn; lia]. }
  destruct (0 <? Str.len stem) eqn:E1; [|lia].
  destruct (Str.len stem <? Str.len stem + Str.len ext - 1) eqn:E2; [|lia].
  cbn [andb]. unfold Str.slice_from.
  rewrite StrFacts.bound_nonneg.
  - unfold Str.len. rewrite Nat2Z.id. apply StrFacts.drop_app.
  - unfold Str.len. rewrite StrFacts.length_app. lia.
Qed.

(** X1. The paths that pass the script's extension test are those whose
    last part is a non-empty stem followed by one of the six extensions of
    the allow-set, compared as written: a name that is only an extension,
    such as ['.html'], does not pass, and neither does a name whose
    extension differs in case or is followed by anything else. *)
Theorem compressed_names p :
  Path.suffix p ∈ extensions ↔
  ∃ stem ext,
    stem ≠ EmptyString ∧ ext ∈ extensions ∧ Path.name p = stem +:+ ext.
Proof.
  split.
  - intros Hs.
    assert (Path.name_suffix (Path.name p) ≠ EmptyString) as Hne.
    { intros E. unfold Path.suffix in Hs. rewrite E in Hs.
      by apply PathFacts.empty_not_extension. }
    exists (Str.slice_to (Path.name p) (- Str.len (Path.suffix p))),
      (Path.suffix p).
    split; [by apply stem_nonempty|]. split; [done|].
    symmetry. by apply StrFacts.stem_suffix.
  - intros (stem & ext & Hstem & Hext & Hname).
    unfold Path.suffix. rewrite Hname. by rewrite suffix_of_stem_ext.
Qed.

(** ** What a run prints and counts *)

(** Freshness of every source, checked on the listing of [data/]. *)
Lemma fresh_by_listing n :
  forallb (λ p, negb (stale n p)) (files_of n) = true →
  ∀ p, below data_dir p → eligible p n → newer p n = true.
Proof.
  intros H p Hb Hel. pose proof Hel as [[f Hf] _].
  rewrite forallb_forall in H.
  specialize (H p (proj1 (list_elem_of_In _ _) (files_of_complete _ _ _ Hb Hf))).
  apply negb_true_iff, stale_false in H. by destruct H.
Qed.

(** X2. When [data] exists and every source below it has an artifact that
    is newer, the run opens no file, changes nothing and prints the one
    line ['All files already compressed']. *)
Theorem nothing_to_do os w :
  is_Some (Tree.lookup data_dir (cwd w)) →
  (∀ p, below data_dir p → eligible p (cwd w) → newer p (cwd w) = true) →
  gzip_web_files os w = (with_line all_already_compressed w, Ok tt).
Proof.
  intros [d Hd] Hfresh. rewrite gzip_web_files_loop, Hd.
  rewrite loop_nothing_to_do; [done|].
  intros x Hx. apply stale_false.
  destruct (decide (eligible x (cwd w))); [right|by left].
  apply Hfresh; [by eapply files_of_below | done].
Qed.

Lemma nothing_to_do_witness :
  let w := Sample.world_of (cwd (gzip_web_files Sample.os Sample.w).1) in
  gzip_web_files Sample.os w = (with_line all_already_compressed w, Ok tt).
Proof.
  apply (nothing_to_do Sample.os).
  - vm_compute. eexists. reflexivity.
  - apply fresh_by_listing. vm_compute. reflexivity.
Defined.

(** X4. A run that returns with [data] present prints one line for each
    file it compressed and then one closing line: with no file compressed,
    ['All files already compressed']; otherwise the summary, whose count is
    the number of the file lines and whose total is the sum of their
    [original_size - compressed_size] (which can be negative). *)
Theorem summary_counts os w w' :
  is_Some (Tree.lookup data_dir (cwd w)) →
  gzip_web_files os w = (w', Ok tt) →
  ∃ ls,
    Forall file_line ls
    ∧ stdout w'
      = stdout w ++ ls
        ++ [closing_line (Z.of_nat (List.length ls), total_saved_of ls)].
Proof.
  intros [d Hd] Hrun.
  apply run_ok in Hrun as [[Hnone _]|(locals & w1 & Hloop & ->)]; [congruence|].
  destruct (loop_counts os _ _ _ _ _ Hloop) as (ls & Hls & Hall & Hc & Ht).
  exists ls. split; [done|]. cbn [stdout with_line]. rewrite Hls, <-app_assoc.
  do 3 f_equal. destruct locals as [c t]. cbn in Hc, Ht. by rewrite Hc, Ht.
Qed.

Lemma summary_counts_witness :
  ∃ ls,
    Forall file_line ls
    ∧ stdout (gzip_web_files Sample.os Sample.w).1
      = stdout Sample.w ++ ls
        ++ [closing_line (Z.of_nat (List.length ls), total_saved_of ls)].
Proof.
  apply (summary_counts Sample.os Sample.w).
  - vm_compute. eexists. reflexivity.
  - vm_compute. reflexivity.
Defined.

(** X6. A run that ends with an exception, on a tree in which no directory
    lists a name twice, fails at a stale source of the listing.  What it has
    printed are the lines of the sources before that one that were stale
    when the run started, one line each and in their order, with the size
    of the source and the size of its artifact: no line for the failing
    file, no summary and no ['All files already compressed'].  What it has
    opened are those sources and their artifacts, and then the failing file,
    and possibly its artifact. *)
Theorem no_summary_on_failure os w w' e :
  well_formed (cwd w) = true →
  gzip_web_files os w = (w', Raise e) →
  ∃ before p after ls evs,
    files_of (cwd w) = before ++ p :: after
    ∧ stale (cwd w) p = true
    ∧ stdout w' = stdout w ++ ls
    ∧ Forall2 (report_of (cwd w) (cwd w'))
        (List.filter (stale (cwd w)) before) ls
    ∧ opens w'
      = opens w ++ flat_map opens_of (List.filter (stale (cwd w)) before)
        ++ evs
    ∧ (evs = [(rb, p)] ∨ evs = opens_of p).
Proof. apply run_raise_trace. Qed.

Lemma no_summary_on_failure_witness :
  ∃ before p after ls evs,
    files_of Sample.tree = before ++ p :: after
    ∧ stale Sample.tree p = true
    ∧ stdout (gzip_web_files fails_at_b_css Sample.w).1 = stdout Sample.w ++ ls
    ∧ Forall2 (report_of Sample.tree
                 (cwd (gzip_web_files fails_at_b_css Sample.w).1))
        (List.filter (stale Sample.tree) before) ls
    ∧ opens (gzip_web_files fails_at_b_css Sample.w).1
      = opens Sample.w
        ++ flat_map opens_of (List.filter (stale Sample.tree) before) ++ evs
    ∧ (evs = [(rb, p)] ∨ evs = opens_of p).
Proof.
  apply (no_summary_on_failure fails_at_b_css Sample.w _ (OSError 28)).
  - vm_compute. reflexivity.
  - vm_compute. reflexivity.
Defined.

Example fails_at_b_css_output :
  stdout (gzip_web_files fails_at_b_css Sample.w).1
  = [file_compressed "a.html" 2 4 (-200 # 2)]
  ∧ opens (gzip_web_files fails_at_b_css Sample.w).1
    = [(rb, ["data"; "a.html"]); (wb, ["data"; "a.html.gz"]);
       (rb, ["data"; "b.css"]); (wb, ["data"; "b.css.gz"])].
Proof. by vm_compute. Qed.

(** ** Directories *)

Section Directories.

Variable os : platform.

Lemma store_keeps_dirs_back p q f t n n' :
  Tree.store p f t n = Ok n' → is_dir q n → is_dir q n'.
Proof.
  intros Hst (m & es & Hq).
  pose proof (proj1 (TreeFacts.store_spec _ _ _ _ _ Hst)) as Hp.
  destruct (decide (q = p)) as [->|Hne].
  - (* a directory at [p] makes [store] fail *)
    exfalso. clear Hp. revert n n' Hst Hq.
    induction p as [|c p IH]; intros [g|m0 es0] n' Hst Hq; try done.
    cbn [Tree.lookup] in Hq. cbn [Tree.store] in Hst.
    destruct (Tree.get c es0) as [x|] eqn:E; [|done].
    destruct p as [|c' p].
    + cbn in Hq. injection Hq as ->. done.
    + destruct (Tree.store (c' :: p) f t x) as [x'|] eqn:Hx; [|done].
      by eapply IH.
  - pose proof (proj2 (TreeFacts.store_spec _ _ _ _ _ Hst) q Hne) as H.
    rewrite Hq in H. destruct H as (m' & es' & H & _). by exists m', es'.
Qed.

Lemma turn_keeps_dirs_back x s w q :
  is_dir q (cwd w) → is_dir q (cwd (loop_body os x s w).1).
Proof.
  pose proof (loop_body_outcome os x s w) as Ho.
  destruct (loop_body os x s w) as [w' r]. cbn [fst].
  inversion Ho; subst; cbn [cwd with_open with_cwd tick with_line]; eauto;
    intros H; repeat (eapply store_keeps_dirs_back; [eassumption|]); done.
Qed.

End Directories.

(** X7. However the run ends, the directories after it are the
    directories before it: the script creates no directory and removes or
    replaces none. *)
Theorem directories_kept os w q :
  is_dir q (cwd (gzip_web_files os w).1) ↔ is_dir q (cwd w).
Proof.
  apply (run_invariant os (λ w', is_dir q (cwd w') ↔ is_dir q (cwd w))).
  - intros l w' H. exact H.
  - intros x s w' _ <-. split.
    + intros (m & es & H). by eapply turn_keeps_dirs.
    + apply turn_keeps_dirs_back.
  - done.
Qed.

(** ** The reported percentage *)

Lemma percentage_bounds original_size compressed_size :
  0 <= original_size → 0 <= compressed_size →
  let percent := percentage (original_size - compressed_size) original_size in
  (percent <= inject_Z 100)%Q
  ∧ (compressed_size <= original_size → (0 <= percent)%Q)
  ∧ (original_size = 0 → percent = inject_Z 0).
Proof.
  intros Ho Hc. cbv zeta. unfold percentage.
  destruct (original_size >? 0) eqn:E.
  2:{ split; [by apply Qle_bool_imp_le|]. split; [|done].
      intros _. by apply Qle_bool_imp_le. }
  assert (0 < original_size) as Hpos by lia.
  assert (0 < inject_Z original_size)%Q as Hq.
  { rewrite <-(Zlt_Qlt 0). done. }
  split; [|split; [|lia]].
  - apply Qle_trans with (1 * inject_Z 100)%Q; [|by apply Qle_bool_imp_le].
    apply Qmult_le_compat_r; [|by apply Qle_bool_imp_le].
    apply Qle_shift_div_r; [done|]. rewrite Qmult_1_l, <-Zle_Qle. lia.
  - intros Hle. apply Qmult_le_0_compat; [|by apply Qle_bool_imp_le].
    apply Qle_shift_div_l; [done|]. rewrite Qmult_0_l.
    rewrite <-(Zle_Qle 0). lia.
Qed.

(** X8. Every percentage that a run prints, however it ends, is at most
    100; it is not negative when the artifact is not larger than the
    source; and it is 0 for a source of zero bytes. *)
Theorem reported_percentages os w name original_size compressed_size percent :
  let ls := drop (List.length (stdout w)) (stdout (gzip_web_files os w).1) in
  file_compressed name original_size compressed_size percent ∈ ls →
  (percent <= inject_Z 100)%Q
  ∧ (compressed_size <= original_size → (0 <= percent)%Q)
  ∧ (original_size = 0 → percent = inject_Z 0).
Proof.
  cbv zeta. intros Hin.
  assert (∃ ls, stdout (gzip_web_files os w).1 = stdout w ++ ls
                ∧ ∀ l, l ∈ ls → file_line l ∨ ∀ n o c q, l ≠ file_compressed n o c q)
    as (ls & Hls & Hall).
  { rewrite gzip_web_files_loop.
    destruct (Tree.lookup data_dir (cwd w)).
    2:{ exists [data_not_found]. split; [done|].
        intros l ->%list_elem_of_singleton. by right. }
    destruct (for_each _ _ _ w) as [w1 [locals|e]] eqn:Hloop.
    - destruct (loop_counts os _ _ _ _ _ Hloop) as (ls & Hls & Hf & _).
      exists (ls ++ [closing_line locals]). cbn [fst stdout with_line].
      rewrite Hls, <-app_assoc. split; [done|].
      intros l [Hl| ->%list_elem_of_singleton]%elem_of_app.
      + left. rewrite Forall_forall in Hf. by apply Hf.
      + right. intros. unfold closing_line. by destruct (_ >? _).
    - apply for_each_raise in Hloop
        as (l1 & x & l2 & s1 & w0 & _ & Hbefore & Hturn).
      destruct (loop_counts os _ _ _ _ _ Hbefore) as (ls & Hls & Hf & _).
      exists ls. cbn [fst].
      rewrite (turn_raise_silent os _ _ _ _ _ Hturn). split; [done|].
      intros l Hl. left. rewrite Forall_forall in Hf. by apply Hf. }
  rewrite Hls, drop_app_length in Hin.
  destruct (Hall _ Hin) as [(Ho & Hc & ->)|Hne];
    [|by destruct (Hne name original_size compressed_size percent)].
  by apply percentage_bounds.
Qed.

Lemma reported_percentages_witness :
  (-200 # 2 <= inject_Z 100)%Q
  ∧ (4 <= 2 → (0 <= -200 # 2)%Q)
  ∧ (2 = 0 → -200 # 2 = inject_Z 0).
Proof.
  apply (reported_percentages Sample.os Sample.w "a.html" 2 4 (-200 # 2)).
  vm_compute. left.
Defined.

(** ** The files that a run compresses *)

(** X3. A run that returns, on a tree in which no directory lists a name
    twice, compresses exactly the sources below [data/] that were stale
    when it started, in the order of [rglob]: for each of them in turn it
    opens the source and then the artifact, and prints one line with the
    name of the source, its size, the size that its artifact has after the
    run, and the percentage computed from the two; the closing line counts
    these sources. *)
Theorem compressed_files os w w' :
  well_formed (cwd w) = true →
  is_Some (Tree.lookup data_dir (cwd w)) →
  gzip_web_files os w = (w', Ok tt) →
  let compressed := List.filter (stale (cwd w)) (files_of (cwd w)) in
  opens w' = opens w ++ flat_map opens_of compressed
  ∧ ∃ ls,
      stdout w'
      = stdout w ++ ls
        ++ [closing_line (Z.of_nat (List.length compressed), total_saved_of ls)]
      ∧ Forall2 (report_of (cwd w) (cwd w')) compressed ls.
Proof.
  intros Hwf [d Hd] Hrun. cbv zeta.
  apply run_ok in Hrun as [[Hnone _]|(locals & w1 & Hloop & ->)]; [congruence|].
  destruct (loop_trace os w [] (files_of (cwd w)) [] w (0, 0) w1 locals)
    as (Ho & (ls & Hls & Hnames) & _); [done|by rewrite app_nil_r|done..|].
  destruct (loop_counts os _ _ _ _ _ Hloop) as (ls' & Hls' & _ & Hc & Ht).
  assert (ls' = ls) as ->.
  { apply (app_inv_head (stdout w)). by rewrite <-Hls, <-Hls'. }
  cbn [opens stdout with_line]. split; [done|]. exists ls.
  split; [|done]. rewrite Hls, <-app_assoc. do 3 f_equal.
  destruct locals as [c t]. cbn [fst snd] in Hc, Ht.
  rewrite Hc, Ht, !Z.add_0_l.
  by rewrite (Forall2_length _ _ _ Hnames).
Qed.

Lemma compressed_files_witness :
  let w' := (gzip_web_files Sample.os Sample.w).1 in
  opens w' = [(rb, ["data"; "a.html"]); (wb, ["data"; "a.html.gz"]);
              (rb, ["data"; "b.css"]); (wb, ["data"; "b.css.gz"])].
Proof.
  apply (compressed_files Sample.os Sample.w).
  - vm_compute. reflexivity.
  - vm_compute. eexists. reflexivity.
  - vm_compute. reflexivity.
Defined.

(** ** Running the script again *)

Section Again.

Variable os : platform.

Lemma store_keeps_paths p q f t n n' :
  Tree.store p f t n = Ok n' →
  is_Some (Tree.lookup q n) → is_Some (Tree.lookup q n').
Proof.
  intros [Hp H]%TreeFacts.store_spec [x Hx].
  destruct (decide (q = p)) as [->|Hne]; [by eexists|].
  specialize (H q Hne). rewrite Hx in H. destruct x as [g|m es].
  - by eexists.
  - destruct H as (m' & es' & -> & _). by eexists.
Qed.

Lemma turn_keeps_paths x s w q :
  is_Some (Tree.lookup q (cwd w)) →
  is_Some (Tree.lookup q (cwd (loop_body os x s w).1)).
Proof.
  pose proof (loop_body_outcome os x s w) as Ho.
  destruct (loop_body os x s w) as [w' r]. cbn [fst].
  inversion Ho; subst; cbn [cwd with_open with_cwd tick with_line]; eauto;
    intros H; repeat (eapply store_keeps_paths; [eassumption|]); done.
Qed.

Lemma turn_ticks x s w : (ticks w <= ticks (loop_body os x s w).1)%nat.
Proof.
  pose proof (loop_body_outcome os x s w) as Ho.
  destruct (loop_body os x s w) as [w' r]. cbn [fst].
  inversion Ho; subst; cbn; lia.
Qed.

(** A turn leaves the files with an extension of the allow-set alone. *)
Lemma turn_keeps_sources x s w p :
  Path.suffix p ∈ extensions →
  Tree.file_at p (cwd (loop_body os x s w).1) = Tree.file_at p (cwd w).
Proof.
  intros Hs.
  destruct (body_effect os x s w _ (loop_body_outcome os x s w))
    as [->|(_ & _ & [Hfr _ _ _])]; [done|].
  apply Hfr. intros E. by apply (PathFacts.artifact_not_source x p).
Qed.

Lemma turn_keeps_ready k0 x s w :
  ready os k0 w → ready os k0 (loop_body os x s w).1.
Proof.
  intros (Hk & Hdir & Hclock). split; [|split].
  - pose proof (turn_ticks x s w). lia.
  - intros p Hb [Hf Hs] (m & es & Hd).
    apply turn_keeps_dirs in Hd. apply (Hdir p Hb); [|done].
    split; [|done]. by rewrite turn_keeps_sources in Hf.
  - intros p f k Hb Hf Hs. rewrite turn_keeps_sources in Hf by done.
    by apply (Hclock p).
Qed.

(** After its turn a source is not stale, and it stays so. *)
Lemma loop_freshens k0 xs s w w' s' :
  ready os k0 w →
  for_each xs (loop_body os) s w = (w', Ok s') →
  ∀ p, below data_dir p →
       p ∈ xs ∨ newer p (cwd w) = true →
       eligible p (cwd w') → newer p (cwd w') = true.
Proof.
  revert s w; induction xs as [|x xs IH]; intros s w Hready Hloop p Hb Hp Hel.
  { injection Hloop as <- _. destruct Hp as [Hp|Hp]; [|done].
    by apply elem_of_nil in Hp. }
  rewrite for_each_cons in Hloop.
  destruct (loop_body os x s w) as [w1 [s1|e]] eqn:Hturn; [|done].
  pose proof (turn_keeps_ready k0 x s w Hready) as Hready1.
  rewrite Hturn in Hready1. cbn [fst] in Hready1.
  apply (IH s1 w1 Hready1 Hloop p Hb); [|done].
  destruct (decide (p ∈ xs)) as [|Hnin]; [by left|right].
  (* [p] is eligible all along *)
  pose proof Hel as [[f Hf] Hs].
  assert (Tree.file_at p (cwd w1) = Some f) as Hf1.
  { pose proof (for_each_invariant
      (λ w2, Tree.file_at p (cwd w2) = Tree.file_at p (cwd w1)) xs
      (loop_body os)) as Hinv.
    rewrite <-Hf. symmetry.
    replace w' with (for_each xs (loop_body os) s1 w1).1 by (by rewrite Hloop).
    apply Hinv; [|done]. intros y ? ? _ <-. by apply turn_keeps_sources. }
  assert (Tree.file_at p (cwd w) = Some f) as Hf0.
  { rewrite <-Hf1. symmetry.
    replace w1 with (loop_body os x s w).1 by (by rewrite Hturn).
    by apply turn_keeps_sources. }
  destruct Hready as (Hk & Hdir & Hclock).
  destruct (newer p (cwd w)) eqn:Hn.
  - (* already newer: the artifact is a regular file, which no turn for
       another source changes *)
    assert (∃ gz, Tree.file_at (artifact p) (cwd w) = Some gz) as [gz Hgz].
    { unfold newer in Hn.
      destruct (Tree.lookup (artifact p) (cwd w)) as [[gz|m es]|] eqn:E;
        [exists gz; by apply file_at_lookup| |done].
      destruct (Hdir p Hb); [by split; [eexists|]|by eexists _, _]. }
    destruct (decide (x = p)) as [->|Hne].
    + rewrite loop_body_newer in Hturn; [|by split; [eexists|]|done].
      by injection Hturn as <- _.
    + destruct (other_turn_frame os p x s w Hs Hne) as (_ & Hg1 & _).
      rewrite Hturn in Hg1. cbn [fst] in Hg1.
      rewrite (newer_files p (cwd w) f gz) in Hn by done.
      rewrite (newer_files p (cwd w1) f gz); [done..|congruence].
  - (* stale: it is [x], and its turn writes the artifact at a later time *)
    destruct Hp as [[E|Hp]%elem_of_cons|Hp]; [|done..]. subst x.
    destruct (turn_regenerates os p s w w1 s1 f Hturn Hf0 Hs Hn)
      as (Hg1 & _).
    rewrite (newer_files p _ f _ Hf1 Hg1). cbn [mtime].
    apply Z.gtb_lt. apply (Hclock p f); [done..|lia].
Qed.

End Again.

(** X5. After a run that returns, when the clock readings of the run are
    after the modification times of the files below [data/] and no path
    below [data/] has a directory at its artifact path, every source below
    [data/] has a newer artifact, and a second run compresses nothing and
    prints ['All files already compressed']. *)
Theorem second_run_does_nothing os w w' :
  is_Some (Tree.lookup data_dir (cwd w)) →
  (∀ p, p ∈ files_of (cwd w) → ¬ is_dir (artifact p) (cwd w)) →
  (∀ p f k, p ∈ files_of (cwd w) → Tree.file_at p (cwd w) = Some f →
            (ticks w < k)%nat → mtime f < clock os k) →
  gzip_web_files os w = (w', Ok tt) →
  (∀ p, below data_dir p → eligible p (cwd w') → newer p (cwd w') = true)
  ∧ gzip_web_files os w' = (with_line all_already_compressed w', Ok tt).
Proof.
  intros Hdata Hdir Hclock Hrun.
  assert (ready os (ticks w) w) as Hready.
  { split; [done|]. split.
    - intros p Hb [[f Hf] _]. apply Hdir. by eapply files_of_complete.
    - intros p f k Hb Hf _. apply (Hclock p); [|done].
      by eapply files_of_complete. }
  apply run_ok in Hrun as [[Hnone _]|(locals & w1 & Hloop & ->)].
  { rewrite Hnone in Hdata. by destruct Hdata. }
  cbn [cwd with_line].
  assert (∀ p, below data_dir p → eligible p (cwd w1) →
               newer p (cwd w1) = true) as Hfresh.
  { intros p Hb Hel.
    apply (loop_freshens os (ticks w) _ _ _ _ _ Hready Hloop p Hb); [|done].
    left. destruct Hel as [[f Hf] Hs].
    apply (files_of_complete _ _ f); [done|].
    rewrite <-Hf. symmetry.
    replace w1 with (for_each (files_of (cwd w)) (loop_body os) (0, 0) w).1
      by (by rewrite Hloop).
    apply (for_each_invariant
      (λ w2, Tree.file_at p (cwd w2) = Tree.file_at p (cwd w))); [|done].
    intros y ? ? _ <-. by apply turn_keeps_sources. }
  split; [done|].
  assert (is_Some (Tree.lookup data_dir (cwd w1))) as [d Hd].
  { replace w1 with (for_each (files_of (cwd w)) (loop_body os) (0, 0) w).1
      by (by rewrite Hloop).
    apply (for_each_invariant (λ w2, is_Some (Tree.lookup data_dir (cwd w2))));
      [|done].
    intros x s w2 _. apply turn_keeps_paths. }
  rewrite gzip_web_files_loop. cbn [cwd with_line]. rewrite Hd.
  rewrite loop_nothing_to_do; [done|].
  intros x Hx. cbn [cwd with_line]. apply stale_false.
  destruct (decide (eligible x (cwd w1))) as [Hel|]; [right|by left].
  apply Hfresh; [|done]. by eapply files_of_below.
Qed.

Lemma second_run_does_nothing_witness :
  let w' := (gzip_web_files Sample.os Sample.w).1 in
  gzip_web_files Sample.os w' = (with_line all_already_compressed w', Ok tt).
Proof.
  apply (second_run_does_nothing Sample.os Sample.w).
  - vm_compute. eexists. reflexivity.
  - apply Forall_forall.
    let l := eval vm_compute in (files_of (cwd Sample.w)) in
    change (files_of (cwd Sample.w)) with l.
    repeat (apply Forall_cons; split); [..|apply Forall_nil_2];
      intros (m & es & H); vm_compute in H; discriminate.
  - intros p f k Hp Hf Hk. revert p Hp f Hf.
    apply (proj1 (Forall_forall
      (λ p, ∀ f, Tree.file_at p (cwd Sample.w) = Some f →
                 mtime f < clock Sample.os k) _)).
    let l := eval vm_compute in (files_of (cwd Sample.w)) in
    change (files_of (cwd Sample.w)) with l.
    repeat (apply Forall_cons; split); [..|apply Forall_nil_2];
      intros f Hf; vm_compute in Hf; try discriminate;
      injection Hf as <-; cbn; lia.
  - vm_compute. reflexivity.
Defined.

(** ** What a run keeps *)

Section Kept.

Variable os : platform.

Lemma turn_keeps_files x s w q :
  is_Some (Tree.file_at q (cwd w)) →
  is_Some (Tree.file_at q (cwd (loop_body os x s w).1)).
Proof.
  assert (∀ p f t n n', Tree.store p f t n = Ok n' →
            is_Some (Tree.file_at q n) → is_Some (Tree.file_at q n')) as Hst.
  { intros p f t n n' H Hq. destruct (decide (q = p)) as [->|Hne].
    - rewrite (TreeFacts.file_at_store_eq _ _ _ _ _ H). by eexists.
    - by rewrite (TreeFacts.file_at_store_ne _ _ _ _ _ _ H Hne). }
  pose proof (loop_body_outcome os x s w) as Ho.
  destruct (loop_body os x s w) as [w' r]. cbn [fst].
  inversion Ho; subst; cbn [cwd with_open with_cwd tick with_line]; eauto;
    intros H; repeat (eapply Hst; [eassumption|]); done.
Qed.

End Kept.

(** X9. However the run ends, every regular file that was there before is
    still a regular file after it: the script removes no file and turns
    none into a directory. *)
Theorem nothing_removed os w q :
  is_Some (Tree.file_at q (cwd w)) →
  is_Some (Tree.file_at q (cwd (gzip_web_files os w).1)).
Proof.
  intros Hq. apply (run_invariant os (λ w', is_Some (Tree.file_at q (cwd w')))).
  - intros l w' H. exact H.
  - intros x s w' _. apply turn_keeps_files.
  - done.
Qed.

Lemma nothing_removed_witness :
  is_Some (Tree.file_at ["data"; "a.html.gz"]
             (cwd (gzip_web_files Sample.os Sample.w).1)).
Proof.
  apply (nothing_removed Sample.os Sample.w).
  vm_compute. eexists. reflexivity.
Defined.
